(** * star_shine: the sinusoid extraction algorithms of [core/analysis.py]

    A shallow embedding of [star_shine/core/analysis.py] and of the parts of
    the time series model it drives, with the properties of the
    prewhitening loop, the single-frequency extractors, the close-frequency
    replacement, the harmonic fixing and the model reduction.

    Conventions.
    - A Python float is a rational [Q]: arithmetic is exact, so nothing here
      speaks about floating point rounding.  [x / 0] is [0] in [Q] where
      numpy gives [inf] or [nan]; statements that divide by the time base
      assume it is positive.
    - A numpy array is a [list].  An operation that raises in Python returns
      [Raise] of the exception in the [result] monad.  The sum and the
      difference of two arrays run over their common prefix: the arrays the
      code adds all have the length of the time axis.
    - The periodogram, the fitter, the goodness-of-fit and the frequency-set
      utilities are other modules of the package; the functions of
      [analysis.py] take them as the fields of a [Services] record, and every
      theorem that does not name a concrete record holds for all of them. *)

From Stdlib Require Import String.
From Stdlib Require Import QArith ZArith List Bool Lia Arith.
From Stdlib Require Import Qround Qabs Qminmax Permutation Sorted Lqa.
Import ListNotations.

Local Open Scope Q_scope.

(** ** Exceptions and the [result] monad *)

(** The exceptions the code can raise, with what raised them.  [Fuel] is
    not a Python outcome: it is the model of a [while] loop that has not
    stopped within the iterations it was given. *)
Inductive exn : Type :=
| ValueError (msg : string)
| IndexError (msg : string).

Arguments ValueError msg%_string.
Arguments IndexError msg%_string.

Inductive result (A : Type) : Type :=
| Ok (a : A)
| Raise (e : exn)
| Fuel.

Arguments Ok {A} a.
Arguments Raise {A} e.
Arguments Fuel {A}.

Definition ret {A : Type} (a : A) : result A := Ok a.
Definition raise {A : Type} (e : exn) : result A := Raise e.

Definition bind {A B : Type} (c : result A) (k : A -> result B) : result B :=
  match c with
  | Ok a => k a
  | Raise e => Raise e
  | Fuel => Fuel
  end.

Notation "x <- c ;; k" := (bind c (fun x => k))
  (at level 61, c at next level, right associativity).
Notation "' p <- c ;; k" := (bind c (fun x => let p := x in k))
  (at level 61, p pattern, c at next level, right associativity).

(** ** Comparisons on floats *)

Definition Qlt_bool (a b : Q) : bool := negb (Qle_bool b a).
Definition Qgt_bool (a b : Q) : bool := Qlt_bool b a.

(** ** numpy *)

(** [np.rint]: the nearest integer, a tie going to the even neighbour. *)
Definition rint (x : Q) : Z :=
  let fl := Qfloor x in
  match Qcompare (x - inject_Z fl) (1 # 2) with
  | Lt => fl
  | Gt => (fl + 1)%Z
  | Eq => if Z.even fl then fl else (fl + 1)%Z
  end.

(** [np.round(x, decimals)] for [decimals >= 0]. *)
Definition np_round (x : Q) (decimals : nat) : Q :=
  let scale := inject_Z (10 ^ Z.of_nat decimals) in
  inject_Z (rint (x * scale)) / scale.

(** [arr[i]] for [0 <= i]; out of range is an [IndexError]. *)
Definition getitem {A : Type} (l : list A) (i : nat) : result A :=
  match nth_error l i with
  | Some x => ret x
  | None => raise (IndexError "index out of bounds")
  end.

(** [arr[idx]] with an index array. *)
Fixpoint take {A : Type} (l : list A) (idx : list nat) : result (list A) :=
  match idx with
  | [] => ret []
  | i :: idx' => x <- getitem l i ;; xs <- take l idx' ;; ret (x :: xs)
  end.

(** [arr[-1]]. *)
Definition getlast {A : Type} (l : list A) : result A :=
  match l with
  | [] => raise (IndexError "index out of bounds")
  | _ => getitem l (length l - 1)
  end.

(** [arr[i:j]]: slicing never raises. *)
Definition slice {A : Type} (l : list A) (i j : nat) : list A :=
  skipn i (firstn j l).

Fixpoint list_max (x : Q) (l : list Q) : Q :=
  match l with
  | [] => x
  | y :: l' => list_max (Qmax x y) l'
  end.

Fixpoint list_min (x : Q) (l : list Q) : Q :=
  match l with
  | [] => x
  | y :: l' => list_min (Qmin x y) l'
  end.

(** [max(arr)] and [min(arr)]; empty is a [ValueError]. *)
Definition py_max (l : list Q) : result Q :=
  match l with
  | [] => raise (ValueError "empty sequence")
  | x :: l' => ret (list_max x l')
  end.

Definition py_min (l : list Q) : result Q :=
  match l with
  | [] => raise (ValueError "empty sequence")
  | x :: l' => ret (list_min x l')
  end.

(** [np.ptp(arr)]: maximum minus minimum. *)
Definition np_ptp (l : list Q) : result Q :=
  hi <- py_max l ;; lo <- py_min l ;; ret (hi - lo).

(** [np.argmax(arr)]: the first index of the maximum. *)
Fixpoint argmax_from (best : Q) (ibest i : nat) (l : list Q) : nat :=
  match l with
  | [] => ibest
  | y :: l' =>
      if Qlt_bool best y then argmax_from y i (S i) l'
      else argmax_from best ibest (S i) l'
  end.

Definition np_argmax (l : list Q) : result nat :=
  match l with
  | [] => raise (ValueError "attempt to get argmax of an empty sequence")
  | x :: l' => ret (argmax_from x 0%nat 1%nat l')
  end.

(** Element-wise [a / b] of two arrays of one length. *)
Fixpoint np_divide (a b : list Q) : result (list Q) :=
  match a, b with
  | [], [] => ret []
  | x :: a', y :: b' => r <- np_divide a' b' ;; ret (x / y :: r)
  | _, _ => raise (ValueError "operands could not be broadcast together")
  end.

(** Element-wise [a + b] and [a - b] on arrays of one length. *)
Fixpoint np_add (a b : list Q) : list Q :=
  match a, b with
  | x :: a', y :: b' => x + y :: np_add a' b'
  | _, _ => []
  end.

Fixpoint np_sub (a b : list Q) : list Q :=
  match a, b with
  | x :: a', y :: b' => x - y :: np_sub a' b'
  | _, _ => []
  end.

Definition mem (i : nat) (l : list nat) : bool := existsb (Nat.eqb i) l.

(** [np.delete(arr, idx)]: the elements whose position is not in [idx];
    a position beyond the array is an [IndexError]. *)
Fixpoint delete_from {A : Type} (i : nat) (idx : list nat) (l : list A) : list A :=
  match l with
  | [] => []
  | x :: l' =>
      if mem i idx then delete_from (S i) idx l'
      else x :: delete_from (S i) idx l'
  end.

Definition np_delete {A : Type} (l : list A) (idx : list nat) : result (list A) :=
  if forallb (fun i => Nat.ltb i (length l)) idx
  then ret (delete_from 0 idx l)
  else raise (IndexError "index out of bounds").

(** [arr[i] = x]; out of range is an [IndexError]. *)
Fixpoint setitem {A : Type} (l : list A) (i : nat) (x : A) : result (list A) :=
  match l, i with
  | [], _ => raise (IndexError "index out of bounds")
  | _ :: l', O => ret (x :: l')
  | y :: l', S i' => r <- setitem l' i' x ;; ret (y :: r)
  end.

(** [np.unique(arr)] on integers: sorted, without duplicates. *)
Fixpoint insert_unique (n : Z) (l : list Z) : list Z :=
  match l with
  | [] => [n]
  | m :: l' =>
      if (n <? m)%Z then n :: l
      else if (n =? m)%Z then l
      else m :: insert_unique n l'
  end.

Definition np_unique (l : list Z) : list Z :=
  fold_right insert_unique [] l.

(** ** The other modules of the package, as seen from [analysis.py] *)

Definition spectrum : Type := (list Q * list Q)%type.
Definition chunks : Type := list (nat * nat).

Record Services : Type := {
  (* periodogram *)
  scargle : list Q -> list Q -> Q -> Q -> Q -> spectrum;
  scargle_parallel : list Q -> list Q -> Q -> Q -> Q -> spectrum;
  scargle_noise_spectrum_redux : list Q -> list Q -> Q -> list Q;
  scargle_noise_at_freq : list Q -> list Q -> list Q -> Q -> list Q;
  scargle_ampl_phase_single : list Q -> list Q -> Q -> Q * Q;
  scargle_ampl_phase : list Q -> list Q -> list Q -> list Q * list Q;
  (* utility *)
  uphill_local_max : list Q -> list Q -> list Q -> list nat;
  consecutive_subsets : list nat -> list (list nat);
  n_parameters : Z -> Z -> Z -> Z;
  (* frequency_sets *)
  f_within_rayleigh : nat -> list Q -> Q -> list nat;
  find_harmonics_tolerance : list Q -> Q -> Q -> list nat * list Z;
  find_harmonics_from_pattern : list Q -> Q -> Q -> list nat * list Z;
  (* model *)
  sum_sines : list Q -> list Q -> list Q -> list Q -> list Q;
  sum_sines_st : list Q -> list Q -> list Q -> list Q -> list Q;
  linear_curve : list Q -> list Q -> list Q -> chunks -> list Q;
  linear_pars : list Q -> list Q -> chunks -> list Q * list Q;
  (* goodness_of_fit *)
  calc_bic : list Q -> Z -> Q;
  (* fitting *)
  fit_multi_sinusoid_per_group :
    list Q -> list Q -> list Q -> list Q -> list Q -> list Q -> list Q ->
    chunks -> list Q * list Q * list Q * list Q * list Q;
  (* the phase wrap of the time series model *)
  wrap_phase : Q -> Q
}.

(** ** Single-frequency extractors *)

Section Extractors.

Variable svc : Services.

(** The frequency step [df = 0.1 / np.ptp(time)]. *)
Definition freq_step (time : list Q) : result Q :=
  t_tot <- np_ptp time ;; ret ((1 # 10) / t_tot).

(** The oversampled scan around the coarse peak: the interval
    [max(peak - df, df / 10), peak + df] on a grid of [df / 100], then the
    highest refined amplitude and the phase at its frequency. *)
Definition refine_window (f_peak df : Q) : Q * Q :=
  (Qmax (f_peak - df) (df / 10), f_peak + df).

Definition refine_peak (time flux : list Q) (f_peak df : Q) : result (Q * Q * Q) :=
  let '(f_left, f_right) := refine_window f_peak df in
  let '(f_refine, a_refine) := scargle svc time flux f_left f_right (df / 100) in
  i_f_max <- np_argmax a_refine ;;
  f_final <- getitem f_refine i_f_max ;;
  a_final <- getitem a_refine i_f_max ;;
  let '(_, ph_final) := scargle_ampl_phase_single svc time flux f_final in
  ret (f_final, a_final, ph_final).

Definition extract_single (time flux : list Q) (f0 fn : Q) (select : string)
  : result (Q * Q * Q) :=
  df <- freq_step time ;;
  let '(freqs, ampls) := scargle_parallel svc time flux f0 fn df in
  ampls <- (if String.eqb select "sn"%string
            then np_divide ampls (scargle_noise_spectrum_redux svc freqs ampls 1)
            else ret ampls) ;;
  i_f_max <- np_argmax ampls ;;
  f_peak <- getitem freqs i_f_max ;;
  refine_peak time flux f_peak df.

Definition extract_local (time flux : list Q) (f0 fn : Q) : result (Q * Q * Q) :=
  df <- freq_step time ;;
  let '(freqs, ampls) := scargle svc time flux f0 fn df in
  f_first <- getitem freqs 0 ;;
  f_last <- getlast freqs ;;
  let i_f_min_edges :=
    uphill_local_max svc freqs (map Qopp ampls) [f_first; f_last] in
  i_lo <- getitem i_f_min_edges 0 ;;
  i_hi <- getitem i_f_min_edges 1 ;;
  let freqs := slice freqs i_lo (i_hi + 1) in
  let ampls := slice ampls i_lo (i_hi + 1) in
  i_f_max <- np_argmax ampls ;;
  f_peak <- getitem freqs i_f_max ;;
  refine_peak time flux f_peak df.

(** The window of the first scan of [extract_approx]. *)
Definition approx_window (f_approx df : Q) : Q * Q :=
  (Qmax (f_approx - 25 * df) (df / 10), f_approx + 25 * df).

(** From the scanned spectrum: uphill from [f_approx] to the nearest peak,
    then the oversampled scan around it. *)
Definition climb_and_refine (time flux : list Q) (f_approx df : Q)
  (scan : spectrum) : result (Q * Q * Q) :=
  let '(freqs, ampls) := scan in
  i_f_max <- getitem (uphill_local_max svc freqs ampls [f_approx]) 0 ;;
  f_peak <- getitem freqs i_f_max ;;
  refine_peak time flux f_peak df.

Definition extract_approx (time flux : list Q) (f_approx : Q) : result (Q * Q * Q) :=
  df <- freq_step time ;;
  let '(f0, fn) := approx_window f_approx df in
  climb_and_refine time flux f_approx df (scargle svc time flux f0 fn df).

End Extractors.

(** ** The time series model *)

(** Modelled from the spec: the class [TimeSeriesModel] of
    [star_shine/core/time_series.py] with its sinusoid set, which
    [analysis.py] drives and which is not among the sources.  A sinusoid is
    a (frequency, amplitude, phase) row with its harmonic flag; a row that
    is excluded stays in the set, out of the residual and of the BIC, until
    it is included again or removed.  The harmonic base index and multiple
    of a row are left out: the functions below read the flag only. *)
Record Sinusoid : Type := {
  freq : Q;
  ampl : Q;
  phase : Q;
  is_harmonic : bool;
  included : bool
}.

Record TimeSeriesModel : Type := {
  time : list Q;
  flux : list Q;
  i_chunks : chunks;
  t_tot : Q;
  f_resolution : Q;
  pd_f0 : Q;
  pd_fn : Q;
  const : list Q;
  slope : list Q;
  sinusoid : list Sinusoid
}.

Definition with_sinusoid (m : TimeSeriesModel) (l : list Sinusoid) : TimeSeriesModel :=
  {| time := time m; flux := flux m; i_chunks := i_chunks m; t_tot := t_tot m;
     f_resolution := f_resolution m; pd_f0 := pd_f0 m; pd_fn := pd_fn m;
     const := const m; slope := slope m; sinusoid := l |}.

Definition set_linear_model (m : TimeSeriesModel) (c s : list Q) : TimeSeriesModel :=
  {| time := time m; flux := flux m; i_chunks := i_chunks m; t_tot := t_tot m;
     f_resolution := f_resolution m; pd_f0 := pd_f0 m; pd_fn := pd_fn m;
     const := c; slope := s; sinusoid := sinusoid m |}.

Definition n_sin (m : TimeSeriesModel) : nat := length (sinusoid m).
Definition f_n (m : TimeSeriesModel) : list Q := map freq (sinusoid m).
Definition a_n (m : TimeSeriesModel) : list Q := map ampl (sinusoid m).
Definition ph_n (m : TimeSeriesModel) : list Q := map phase (sinusoid m).
Definition harmonics (m : TimeSeriesModel) : list bool := map is_harmonic (sinusoid m).

(** [np.arange(len(mask))[mask]]: the positions at which a mask holds. *)
Fixpoint where_from (i : nat) (mask : list bool) : list nat :=
  match mask with
  | [] => []
  | b :: mask' => if b then i :: where_from (S i) mask' else where_from (S i) mask'
  end.

(** [get_sinusoid_parameters(exclude=False)]: all rows, the excluded too. *)
Definition get_sinusoid_parameters (m : TimeSeriesModel) : list Q * list Q * list Q :=
  (f_n m, a_n m, ph_n m).

Definition get_parameters (m : TimeSeriesModel)
  : list Q * list Q * list Q * list Q * list Q :=
  (const m, slope m, f_n m, a_n m, ph_n m).

(** Mark the rows at the positions [idx]. *)
Definition mark (b : bool) (s : Sinusoid) : Sinusoid :=
  {| freq := freq s; ampl := ampl s; phase := phase s;
     is_harmonic := is_harmonic s; included := b |}.

Fixpoint mark_from (i : nat) (idx : list nat) (b : bool) (l : list Sinusoid)
  : list Sinusoid :=
  match l with
  | [] => []
  | s :: l' =>
      (if mem i idx then mark b s else s) :: mark_from (S i) idx b l'
  end.

Definition in_range (n : nat) (idx : list nat) : bool :=
  forallb (fun i => Nat.ltb i n) idx.

Definition exclude_sinusoids (m : TimeSeriesModel) (idx : list nat)
  : result TimeSeriesModel :=
  if in_range (n_sin m) idx
  then ret (with_sinusoid m (mark_from 0 idx false (sinusoid m)))
  else raise (IndexError "index out of bounds").

Definition include_sinusoids (m : TimeSeriesModel) (idx : list nat)
  : result TimeSeriesModel :=
  if in_range (n_sin m) idx
  then ret (with_sinusoid m (mark_from 0 idx true (sinusoid m)))
  else raise (IndexError "index out of bounds").

Definition remove_sinusoids (m : TimeSeriesModel) (idx : list nat)
  : result TimeSeriesModel :=
  l <- np_delete (sinusoid m) idx ;; ret (with_sinusoid m l).

Definition remove_excluded (m : TimeSeriesModel) : TimeSeriesModel :=
  with_sinusoid m (filter included (sinusoid m)).

Section Model.

Variable svc : Services.

(** Rows from three parameter arrays of one length: phases wrapped, the
    flags of [old] kept position by position, a row beyond [old] being an
    included non-harmonic. *)
Fixpoint rows (f a ph : list Q) (old : list Sinusoid) : result (list Sinusoid) :=
  match f, a, ph with
  | [], [], [] => ret []
  | x :: f', y :: a', z :: ph' =>
      r <- rows f' a' ph' (tl old) ;;
      ret ({| freq := x; ampl := y; phase := wrap_phase svc z;
              is_harmonic := match old with s :: _ => is_harmonic s | [] => false end;
              included := true |} :: r)
  | _, _, _ => raise (ValueError "shape mismatch")
  end.

Definition add_sinusoids (m : TimeSeriesModel) (f a ph : list Q)
  : result TimeSeriesModel :=
  r <- rows f a ph [] ;; ret (with_sinusoid m (sinusoid m ++ r)).

(** [set_sinusoids(f, a, ph)]: the whole set is replaced. *)
Definition set_sinusoids (m : TimeSeriesModel) (f a ph : list Q)
  : result TimeSeriesModel :=
  r <- rows f a ph (sinusoid m) ;; ret (with_sinusoid m r).

(** [update_sinusoids(f, a, ph, j)] with scalars: row [j] gets the new
    values and is included again. *)
Fixpoint update_row (l : list Sinusoid) (j : nat) (f a ph : Q)
  : result (list Sinusoid) :=
  match l, j with
  | [], _ => raise (IndexError "index out of bounds")
  | s :: l', O =>
      ret ({| freq := f; ampl := a; phase := wrap_phase svc ph;
              is_harmonic := is_harmonic s; included := true |} :: l')
  | s :: l', S j' => r <- update_row l' j' f a ph ;; ret (s :: r)
  end.

Definition update_sinusoid (m : TimeSeriesModel) (f a ph : Q) (j : nat)
  : result TimeSeriesModel :=
  r <- update_row (sinusoid m) j f a ph ;; ret (with_sinusoid m r).

(** [update_sinusoids(f_c, a_c, ph_c, idx)] with the arrays of a snapshot
    of the whole set: each row of [idx] goes back to its snapshot
    values. *)
Fixpoint restore_sinusoids (m : TimeSeriesModel) (f_c a_c ph_c : list Q)
  (idx : list nat) : result TimeSeriesModel :=
  match idx with
  | [] => ret m
  | j :: idx' =>
      f <- getitem f_c j ;; a <- getitem a_c j ;; ph <- getitem ph_c j ;;
      m <- update_sinusoid m f a ph j ;;
      restore_sinusoids m f_c a_c ph_c idx'
  end.

Definition active (m : TimeSeriesModel) : list Sinusoid :=
  filter included (sinusoid m).

Definition model_sinusoid (m : TimeSeriesModel) : list Q :=
  sum_sines svc (time m) (map freq (active m)) (map ampl (active m))
    (map phase (active m)).

Definition model_linear (m : TimeSeriesModel) : list Q :=
  linear_curve svc (time m) (const m) (slope m) (i_chunks m).

Definition residual (m : TimeSeriesModel) : list Q :=
  np_sub (np_sub (flux m) (model_linear m)) (model_sinusoid m).

(** Two parameters per chunk, three per free sinusoid, one per harmonic. *)
Definition n_param (m : TimeSeriesModel) : Z :=
  n_parameters svc (Z.of_nat (length (i_chunks m)))
    (Z.of_nat (length (filter (fun s => negb (is_harmonic s)) (active m))))
    (Z.of_nat (length (filter is_harmonic (active m)))).

Definition bic (m : TimeSeriesModel) : Q := calc_bic svc (residual m) (n_param m).

(** The least-squares trend of the flux minus the sinusoids. *)
Definition update_linear_model (m : TimeSeriesModel) : TimeSeriesModel :=
  let '(c, s) :=
    linear_pars svc (time m) (np_sub (flux m) (model_sinusoid m)) (i_chunks m) in
  set_linear_model m c s.

End Model.

(** ** Close-frequency refinement and replacement *)

Section Subsets.

Variable svc : Services.

(** One sinusoid of the subset: exclude it, extract it again from the
    residual of the others (a harmonic keeps its frequency) and put it
    back. *)
Definition refine_one (m : TimeSeriesModel) (i_harmonics : list nat) (j : nat)
  : result TimeSeriesModel :=
  m <- exclude_sinusoids m [j] ;;
  let m := update_linear_model svc m in
  f_j <- getitem (f_n m) j ;;
  ' (f_j, a_j, ph_j) <-
    (if mem j i_harmonics
     then let '(a_j, ph_j) :=
            scargle_ampl_phase_single svc (time m) (residual svc m) f_j in
          ret (f_j, a_j, ph_j)
     else extract_approx svc (time m) (residual svc m) f_j) ;;
  update_sinusoid svc m f_j a_j ph_j j.

Fixpoint refine_pass (m : TimeSeriesModel) (i_harmonics close_f : list nat)
  : result TimeSeriesModel :=
  match close_f with
  | [] => ret m
  | j :: close_f' =>
      m <- refine_one m i_harmonics j ;; refine_pass m i_harmonics close_f'
  end.

(** The [while condition_1] loop of [refine_subset]. *)
Fixpoint refine_loop (fuel : nat) (m : TimeSeriesModel)
  (i_harmonics close_f : list nat) (bic_prev : Q) : result TimeSeriesModel :=
  match fuel with
  | O => Fuel
  | S fuel' =>
      let '(f_c, a_c, ph_c) := get_sinusoid_parameters m in
      m <- refine_pass m i_harmonics close_f ;;
      let m := update_linear_model svc m in
      let bic := bic svc m in
      let d_bic := bic_prev - bic in
      if Qgt_bool (np_round d_bic 2) 0
      then refine_loop fuel' m i_harmonics close_f bic
      else m <- restore_sinusoids svc m f_c a_c ph_c close_f ;;
           ret (update_linear_model svc m)
  end.

Definition refine_subset (fuel : nat) (m : TimeSeriesModel) (close_f : list nat)
  : result TimeSeriesModel :=
  let i_harmonics := where_from 0 (harmonics m) in
  refine_loop fuel m i_harmonics close_f (bic svc m).

(** The acceptance condition of a replacement. *)
Definition replace_accepts (bic_prev bic : Q) : bool :=
  Qgt_bool (np_round (bic_prev - bic) 2) 0.

(** The model with the set [set_i] excluded and its single replacement
    (the harmonics of the set at their own frequencies, when it has any)
    added, the trend fitted again. *)
Definition replace_candidate (m : TimeSeriesModel) (i_harmonics set_i : list nat)
  : result (TimeSeriesModel * nat * nat) :=
  let freq_res := 1 / t_tot m in
  m <- exclude_sinusoids m set_i ;;
  let m := update_linear_model svc m in
  let harm_i := filter (fun h => mem h i_harmonics) set_i in
  let f_c := f_n m in
  ' (f_i, a_i, ph_i) <-
    (if (0 <? length harm_i)%nat
     then f_i <- take f_c harm_i ;;
          let '(a_i, ph_i) :=
            scargle_ampl_phase svc (time m) (residual svc m) f_i in
          ret (f_i, a_i, ph_i)
     else fs <- take f_c set_i ;;
          lo <- py_min fs ;;
          hi <- py_max fs ;;
          ' (f, a, ph) <- extract_local svc (time m) (residual svc m)
                           (lo - freq_res) (hi + freq_res) ;;
          ret ([f], [a], [ph])) ;;
  m <- add_sinusoids svc m f_i a_i ph_i ;;
  ret (update_linear_model svc m, length f_c, length f_i).

(** One round of the loop over the subsets: the state is the model, the
    BIC to beat and the positions replaced so far. *)
Definition replace_try (i_harmonics : list nat)
  (st : TimeSeriesModel * Q * list nat) (set_i : list nat)
  : result (TimeSeriesModel * Q * list nat) :=
  let '(m, bic_prev, removed) := st in
  if existsb (fun i => mem i removed) set_i then ret st
  else
    ' (m, n_c, n_i) <- replace_candidate m i_harmonics set_i ;;
    let bic := bic svc m in
    if replace_accepts bic_prev bic
    then ret (m, bic, removed ++ set_i)
    else m <- remove_sinusoids m (seq n_c n_i) ;;
         m <- include_sinusoids m set_i ;;
         ret (update_linear_model svc m, bic_prev, removed).

Fixpoint replace_sets (i_harmonics : list nat)
  (st : TimeSeriesModel * Q * list nat) (sets : list (list nat))
  : result (TimeSeriesModel * Q * list nat) :=
  match sets with
  | [] => ret st
  | set_i :: sets' =>
      st <- replace_try i_harmonics st set_i ;;
      replace_sets i_harmonics st sets'
  end.

Definition replace_subset (m : TimeSeriesModel) (close_f : list nat)
  : result TimeSeriesModel :=
  let i_harmonics := where_from 0 (harmonics m) in
  let close_f_sets := consecutive_subsets svc close_f in
  ' (m, _, _) <- replace_sets i_harmonics (m, bic svc m, []) close_f_sets ;;
  ret (remove_excluded m).

End Subsets.

(** ** The prewhitening loop *)

(** What one round of the loop did: the selection metric it extracted
    with, the BIC to beat, the BIC of the tentative model and the verdict.
    The rounds are a ghost record of the run, newest first. *)
Record Round : Type := {
  rd_select : string;
  rd_bic_prev : Q;
  rd_bic : Q;
  rd_accepted : bool
}.

Record LoopState : Type := {
  ls_model : TimeSeriesModel;
  ls_select : string;
  ls_switch : bool;
  condition_1 : bool;
  condition_2 : bool;
  ls_bic_prev : Q;
  ls_rounds : list Round
}.

Inductive outcome : Type :=
| Finished (st : LoopState)            (* the loop condition became false *)
| Raised (e : exn) (st : LoopState)    (* the round begun in [st] raised *)
| OutOfFuel (st : LoopState).          (* still running in [st] *)

Definition final_state (o : outcome) : LoopState :=
  match o with
  | Finished st | Raised _ st | OutOfFuel st => st
  end.

Section Prewhitening.

Variable svc : Services.
Variables (bic_thr snr_thr : Q) (stop_crit : string).
Variables (fit_each_step replace_each_step : bool).
(** [n_extract] after [if n_extract == 0: n_extract = 10**6], and the
    number of sinusoids the model came with. *)
Variables (n_extract : Z) (n_sin_init : nat).
(** The iterations granted to the inner loop of [refine_subset]. *)
Variable fuel_refine : nat.

Definition loop_condition (st : LoopState) : bool :=
  (condition_1 st || ls_switch st) && condition_2 st.

(** The acceptance condition of the BIC criterion. *)
Definition bic_accepts (bic_prev bic : Q) : bool :=
  Qgt_bool (np_round (bic_prev - bic) 2) bic_thr.

Definition improve (m : TimeSeriesModel) : result TimeSeriesModel :=
  if fit_each_step
  then
    let '(const, slope, f_n, a_n, ph_n) := get_parameters m in
    let '(c, s, f, a, ph) :=
      fit_multi_sinusoid_per_group svc (time m) (flux m) const slope
        f_n a_n ph_n (i_chunks m) in
    set_sinusoids svc (set_linear_model m c s) f a ph
  else
    let close_f :=
      f_within_rayleigh svc (n_sin m - 1) (f_n m) (f_resolution m) in
    if (1 <? length close_f)%nat
    then refine_subset svc fuel_refine m close_f
    else ret (update_linear_model svc m).

Definition replace_close (m : TimeSeriesModel) : result TimeSeriesModel :=
  if replace_each_step
  then
    let close_f :=
      f_within_rayleigh svc (n_sin m - 1) (f_n m) (f_resolution m) in
    if (1 <? length close_f)%nat then replace_subset svc m close_f else ret m
  else ret m.

(** The body of the [while] loop. *)
Definition loop_body (st : LoopState) : result LoopState :=
  let '(select, switch) :=
    if ls_switch st && negb (condition_1 st)
    then ("sn"%string, false)
    else (ls_select st, ls_switch st) in
  let m := ls_model st in
  let bic_prev := ls_bic_prev st in
  let '(f_c, a_c, ph_c) := get_sinusoid_parameters m in
  ' (f_i, a_i, ph_i) <-
    extract_single svc (time m) (residual svc m) (pd_f0 m) (pd_fn m) select ;;
  m <- add_sinusoids svc m [f_i] [a_i] [ph_i] ;;
  m <- improve m ;;
  m <- replace_close m ;;
  let bic := bic svc m in
  cond1 <-
    (if String.eqb stop_crit "snr"
     then noise <- getitem (scargle_noise_at_freq svc [f_i] (time m)
                              (residual svc m) 1) 0 ;;
          ret (Qgt_bool (a_i / noise) snr_thr)
     else ret (bic_accepts bic_prev bic)) ;;
  ' (m, bic_next) <-
    (if cond1 : bool
     then ret (m, bic)
     else m <- set_sinusoids svc m f_c a_c ph_c ;;
          ret (update_linear_model svc m, bic_prev)) ;;
  ret {| ls_model := m;
         ls_select := select;
         ls_switch := switch;
         condition_1 := cond1;
         condition_2 := (Z.of_nat (n_sin m) - Z.of_nat n_sin_init <? n_extract)%Z;
         ls_bic_prev := bic_next;
         ls_rounds := {| rd_select := select; rd_bic_prev := bic_prev;
                         rd_bic := bic; rd_accepted := cond1 |}
                      :: ls_rounds st |}.

Fixpoint loop (fuel : nat) (st : LoopState) : outcome :=
  if loop_condition st
  then match fuel with
       | O => OutOfFuel st
       | S fuel' =>
           match loop_body st with
           | Ok st' => loop fuel' st'
           | Raise e => Raised e st
           | Fuel => OutOfFuel st
           end
       end
  else Finished st.

End Prewhitening.

(** [extract_sinusoids]; [fuel] bounds the rounds of its loop and of the
    loops of [refine_subset] inside it. *)
Definition extract_sinusoids (svc : Services) (fuel : nat) (ts_model : TimeSeriesModel)
  (bic_thr snr_thr : Q) (stop_crit select : string) (n_extract : Z)
  (fit_each_step replace_each_step : bool) : outcome :=
  let n_extract := if (n_extract =? 0)%Z then (10 ^ 6)%Z else n_extract in
  let n_sin_init := n_sin ts_model in
  let '(switch, select) :=
    if String.eqb select "hybrid" then (true, "a"%string) else (false, select) in
  let bic_prev := bic svc ts_model in
  loop svc bic_thr snr_thr stop_crit fit_each_step replace_each_step
    n_extract n_sin_init fuel fuel
    {| ls_model := ts_model; ls_select := select; ls_switch := switch;
       condition_1 := true; condition_2 := true; ls_bic_prev := bic_prev;
       ls_rounds := [] |}.

(** ** Fixing the harmonic frequencies *)

Section Harmonics.

Variable svc : Services.

(** [np.arange(len(f_n))[harmonics][harmonic_n == n]]: the candidates
    whose harmonic number is [n]. *)
Fixpoint candidates_of (harmonics : list nat) (harmonic_n : list Z) (n : Z)
  : result (list nat) :=
  match harmonics, harmonic_n with
  | [], [] => ret []
  | h :: hs, k :: ks =>
      r <- candidates_of hs ks n ;;
      ret (if (k =? n)%Z then h :: r else r)
  | _, _ => raise (IndexError "boolean index did not match indexed array")
  end.

(** The state of the loop over the harmonic numbers. *)
Record FixState : Type := {
  fx_cur_resid : list Q;
  fx_resid : list Q;
  fx_const : list Q;
  fx_slope : list Q;
  f_new : list Q;
  a_new : list Q;
  ph_new : list Q;
  remove_harm_c : list nat
}.

Definition fix_harmonic (time : list Q) (p_orb : Q) (f_n a_n ph_n : list Q)
  (i_chunks : chunks) (harmonics : list nat) (harmonic_n : list Z)
  (st : FixState) (n : Z) : result FixState :=
  cand <- take (seq 0 (length f_n)) harmonics ;;
  remove <- candidates_of cand harmonic_n n ;;
  f_r <- take f_n remove ;;
  a_r <- take a_n remove ;;
  ph_r <- take ph_n remove ;;
  let model_sinusoid_r := sum_sines svc time f_r a_r ph_r in
  let cur_resid := np_add (fx_cur_resid st) model_sinusoid_r in
  let '(const, slope) := linear_pars svc time (fx_resid st) i_chunks in
  let resid := np_sub cur_resid (linear_curve svc time const slope i_chunks) in
  let f_i := inject_Z n / p_orb in
  let '(a_i, ph_i) := scargle_ampl_phase_single svc time resid f_i in
  let model_sinusoid_n := sum_sines svc time [f_i] [a_i] [ph_i] in
  let cur_resid := np_sub cur_resid model_sinusoid_n in
  ret {| fx_cur_resid := cur_resid; fx_resid := resid;
         fx_const := const; fx_slope := slope;
         f_new := f_new st ++ [f_i];
         a_new := a_new st ++ [a_i];
         ph_new := ph_new st ++ [ph_i];
         remove_harm_c := remove_harm_c st ++ remove |}.

Fixpoint fix_harmonics (time : list Q) (p_orb : Q) (f_n a_n ph_n : list Q)
  (i_chunks : chunks) (harmonics : list nat) (harmonic_n : list Z)
  (st : FixState) (ns : list Z) : result FixState :=
  match ns with
  | [] => ret st
  | n :: ns' =>
      st <- fix_harmonic time p_orb f_n a_n ph_n i_chunks harmonics harmonic_n st n ;;
      fix_harmonics time p_orb f_n a_n ph_n i_chunks harmonics harmonic_n st ns'
  end.

(** The state of the loop over the sinusoids that are not harmonics. *)
Record ReextractState : Type := {
  rx_cur_resid : list Q;
  rx_f_n : list Q;
  rx_a_n : list Q;
  rx_ph_n : list Q;
  remove_non_harm : list nat
}.

Definition reextract (time : list Q) (i_chunks : chunks) (freq_res : Q)
  (st : ReextractState) (i : nat) : result ReextractState :=
  f_i <- getitem (rx_f_n st) i ;;
  a_i <- getitem (rx_a_n st) i ;;
  ph_i <- getitem (rx_ph_n st) i ;;
  let model_sinusoid_r := sum_sines svc time [f_i] [a_i] [ph_i] in
  let cur_resid := np_add (rx_cur_resid st) model_sinusoid_r in
  let '(const, slope) := linear_pars svc time cur_resid i_chunks in
  let resid := np_sub cur_resid (linear_curve svc time const slope i_chunks) in
  let fl := f_i - freq_res in
  let fr := f_i + freq_res in
  ' (f, a, ph) <- extract_approx svc time resid f_i ;;
  f_n <- setitem (rx_f_n st) i f ;;
  a_n <- setitem (rx_a_n st) i a ;;
  ph_n <- setitem (rx_ph_n st) i ph ;;
  let remove := if Qle_bool f fl || Qle_bool fr f
                then remove_non_harm st ++ [i] else remove_non_harm st in
  let model_sinusoid_n := sum_sines svc time [f] [a] [ph] in
  ret {| rx_cur_resid := np_sub cur_resid model_sinusoid_n;
         rx_f_n := f_n; rx_a_n := a_n; rx_ph_n := ph_n;
         remove_non_harm := remove |}.

Fixpoint reextract_all (time : list Q) (i_chunks : chunks) (freq_res : Q)
  (st : ReextractState) (non_harm : list nat) : result ReextractState :=
  match non_harm with
  | [] => ret st
  | i :: rest =>
      st <- reextract time i_chunks freq_res st i ;;
      reextract_all time i_chunks freq_res st rest
  end.

(** The first half of [fix_harmonic_frequency]: the candidates found, each
    harmonic number extracted again at its exact frequency; the result is
    the state of the loop, with the parameter arrays in which the
    candidates are deleted and the fixed harmonics appended. *)
Definition fix_candidates (time flux : list Q) (p_orb : Q) (const slope : list Q)
  (f_n a_n ph_n : list Q) (i_chunks : chunks)
  : result (Q * FixState * (list Q * list Q * list Q)) :=
  t_tot <- np_ptp time ;;
  let freq_res := (15 # 10) / t_tot in
  let '(harmonics, harmonic_n) :=
    find_harmonics_tolerance svc f_n p_orb (freq_res / 2) in
  if (length harmonics =? 0)%nat
  then raise (ValueError "No harmonic frequencies found")
  else
    let model_sinusoid := sum_sines svc time f_n a_n ph_n in
    let cur_resid := np_sub flux model_sinusoid in
    let resid := np_sub cur_resid (linear_curve svc time const slope i_chunks) in
    st <- fix_harmonics time p_orb f_n a_n ph_n i_chunks harmonics harmonic_n
            {| fx_cur_resid := cur_resid; fx_resid := resid;
               fx_const := const; fx_slope := slope;
               f_new := []; a_new := []; ph_new := []; remove_harm_c := [] |}
            (np_unique harmonic_n) ;;
    f_kept <- np_delete f_n (remove_harm_c st) ;;
    a_kept <- np_delete a_n (remove_harm_c st) ;;
    ph_kept <- np_delete ph_n (remove_harm_c st) ;;
    ret (freq_res, st,
         (f_kept ++ f_new st, a_kept ++ a_new st, ph_kept ++ ph_new st)).

(** [fix_harmonic_frequency].  The BIC the source computes for its log
    message is left out; it touches nothing that is returned. *)
Definition fix_harmonic_frequency (time flux : list Q) (p_orb : Q)
  (const slope f_n a_n ph_n : list Q) (i_chunks : chunks)
  : result (list Q * list Q * list Q * list Q * list Q) :=
  ' (freq_res, st, (f_n, a_n, ph_n)) <-
    fix_candidates time flux p_orb const slope f_n a_n ph_n i_chunks ;;
  let n_sin := length f_n in
  let '(harmonics, harmonic_n) :=
    find_harmonics_from_pattern svc f_n p_orb (1 # 1000000000) in
  non_harm <- np_delete (seq 0 n_sin) harmonics ;;
  st <- reextract_all time i_chunks freq_res
          {| rx_cur_resid := fx_cur_resid st;
             rx_f_n := f_n; rx_a_n := a_n; rx_ph_n := ph_n;
             remove_non_harm := [] |} non_harm ;;
  dropped <- take non_harm (remove_non_harm st) ;;
  f_n <- np_delete (rx_f_n st) dropped ;;
  a_n <- np_delete (rx_a_n st) dropped ;;
  ph_n <- np_delete (rx_ph_n st) dropped ;;
  let model_sinusoid := sum_sines svc time f_n a_n ph_n in
  let cur_resid := np_sub flux model_sinusoid in
  let '(const, slope) := linear_pars svc time cur_resid i_chunks in
  ret (const, slope, f_n, a_n, ph_n).

End Harmonics.

(** ** Removing single sinusoids *)

Section Reduction.

Variable svc : Services.

(** The state of the loops of [remove_sinusoids_single]. *)
Record RemoveState : Type := {
  remove_single : list nat;
  rm_cur_resid : list Q;
  rm_bic_prev : Q
}.

(** The body of [for i in range(n_sin)]. *)
Definition remove_try (time : list Q) (f_n a_n ph_n : list Q) (i_chunks : chunks)
  (harmonics : list nat) (st : RemoveState) (i : nat) : result RemoveState :=
  if mem i (remove_single st) then ret st
  else
    f_i <- getitem f_n i ;;
    a_i <- getitem a_n i ;;
    ph_i <- getitem ph_n i ;;
    let model_sinusoid_r := sum_sines_st svc time [f_i] [a_i] [ph_i] in
    let resid := np_add (rm_cur_resid st) model_sinusoid_r in
    let '(const, slope) := linear_pars svc time resid i_chunks in
    let resid := np_sub resid (linear_curve svc time const slope i_chunks) in
    let n_chunks := Z.of_nat (length i_chunks) in
    let n_sin := Z.of_nat (length f_n) in
    let n_harm := Z.of_nat (length harmonics) in
    let n_harm_i :=
      (n_harm
       - Z.of_nat (length (filter (fun h => mem h harmonics) (remove_single st)))
       - (if mem i harmonics then 1 else 0))%Z in
    let n_sin_i :=
      (n_sin - Z.of_nat (length (remove_single st)) - 1 - n_harm_i)%Z in
    let n_param := n_parameters svc n_chunks n_sin_i n_harm_i in
    let bic := calc_bic svc resid n_param in
    if Qgt_bool (np_round (rm_bic_prev st - bic) 2) 0
    then ret {| remove_single := remove_single st ++ [i];
                rm_cur_resid := np_add (rm_cur_resid st) model_sinusoid_r;
                rm_bic_prev := bic |}
    else ret st.

Fixpoint remove_pass (time : list Q) (f_n a_n ph_n : list Q) (i_chunks : chunks)
  (harmonics : list nat) (st : RemoveState) (range : list nat)
  : result RemoveState :=
  match range with
  | [] => ret st
  | i :: range' =>
      st <- remove_try time f_n a_n ph_n i_chunks harmonics st i ;;
      remove_pass time f_n a_n ph_n i_chunks harmonics st range'
  end.

(** [while len(remove_single) > n_prev]: a pass over all sinusoids, and
    another one as long as the last one removed something. *)
Fixpoint remove_loop (fuel : nat) (time : list Q) (f_n a_n ph_n : list Q)
  (i_chunks : chunks) (harmonics : list nat) (st : RemoveState)
  : result RemoveState :=
  match fuel with
  | O => Fuel
  | S fuel' =>
      st' <- remove_pass time f_n a_n ph_n i_chunks harmonics st
               (seq 0 (length f_n)) ;;
      if (length (remove_single st) <? length (remove_single st'))%nat
      then remove_loop fuel' time f_n a_n ph_n i_chunks harmonics st'
      else ret st'
  end.

(** [remove_sinusoids_single].  The loop is given one pass more than there
    are sinusoids, which it cannot use up ([remove_loop_returns]). *)
Definition remove_sinusoids_single (time flux : list Q) (p_orb : Q)
  (const slope f_n a_n ph_n : list Q) (i_chunks : chunks)
  : result (list Q * list Q * list Q * list Q * list Q) :=
  let n_chunks := Z.of_nat (length i_chunks) in
  let n_sin := Z.of_nat (length f_n) in
  let '(harmonics, harmonic_n) :=
    find_harmonics_from_pattern svc f_n p_orb (1 # 1000000000) in
  let n_harm := Z.of_nat (length harmonics) in
  let model_sinusoid := sum_sines svc time f_n a_n ph_n in
  let cur_resid := np_sub flux model_sinusoid in
  let resid := np_sub cur_resid (linear_curve svc time const slope i_chunks) in
  let n_param := n_parameters svc n_chunks n_sin n_harm in
  let bic_prev := calc_bic svc resid n_param in
  st <- remove_loop (S (length f_n)) time f_n a_n ph_n i_chunks harmonics
          {| remove_single := []; rm_cur_resid := cur_resid;
             rm_bic_prev := bic_prev |} ;;
  let '(const, slope) := linear_pars svc time (rm_cur_resid st) i_chunks in
  f_n <- np_delete f_n (remove_single st) ;;
  a_n <- np_delete a_n (remove_single st) ;;
  ph_n <- np_delete ph_n (remove_single st) ;;
  ret (const, slope, f_n, a_n, ph_n).

End Reduction.

(** ** The harmonic finders *)

(** Modelled from the spec: [frequency_sets.find_harmonics_tolerance] and
    [frequency_sets.find_harmonics_from_pattern], which are not among the
    sources and which the spec describes as one interface,
    [(f_n, period, tolerance) -> (indices, multiples)].  A sinusoid is a
    candidate harmonic when its frequency is within [f_tol] of an exact
    multiple [n / p_orb] of the orbital frequency, [n] a positive integer;
    the multiple tried is the nearest one.  The result is the positions of
    the candidates and their harmonic numbers. *)
Definition nearest_harmonic (f p_orb : Q) : Z := Z.max 1 (rint (f * p_orb)).

Definition is_candidate (f p_orb f_tol : Q) : bool :=
  Qlt_bool (Qabs (f - inject_Z (nearest_harmonic f p_orb) / p_orb)) f_tol.

Fixpoint harmonics_from (i : nat) (f_n : list Q) (p_orb f_tol : Q)
  : list nat * list Z :=
  match f_n with
  | [] => ([], [])
  | f :: f_n' =>
      let '(idx, ns) := harmonics_from (S i) f_n' p_orb f_tol in
      if is_candidate f p_orb f_tol
      then (i :: idx, nearest_harmonic f p_orb :: ns)
      else (idx, ns)
  end.

Definition find_harmonics_tolerance_spec (f_n : list Q) (p_orb f_tol : Q)
  : list nat * list Z :=
  harmonics_from 0 f_n p_orb f_tol.

(** Services whose harmonic finders are the one of the spec. *)
Definition with_spec_finder (svc : Services) : Services :=
  {| scargle := scargle svc;
     scargle_parallel := scargle_parallel svc;
     scargle_noise_spectrum_redux := scargle_noise_spectrum_redux svc;
     scargle_noise_at_freq := scargle_noise_at_freq svc;
     scargle_ampl_phase_single := scargle_ampl_phase_single svc;
     scargle_ampl_phase := scargle_ampl_phase svc;
     uphill_local_max := uphill_local_max svc;
     consecutive_subsets := consecutive_subsets svc;
     n_parameters := n_parameters svc;
     f_within_rayleigh := f_within_rayleigh svc;
     find_harmonics_tolerance := find_harmonics_tolerance_spec;
     find_harmonics_from_pattern := find_harmonics_tolerance_spec;
     sum_sines := sum_sines svc;
     sum_sines_st := sum_sines_st svc;
     linear_curve := linear_curve svc;
     linear_pars := linear_pars svc;
     calc_bic := calc_bic svc;
     fit_multi_sinusoid_per_group := fit_multi_sinusoid_per_group svc;
     wrap_phase := wrap_phase svc |}.

(** ** Stand-ins for the services, for the worked examples *)

Module StandIn.

(** The frequency grid of a periodogram: [f0], [f0 + df], ... up to [fn].
    The stand-ins return their numbers in lowest terms. *)
Definition grid (f0 fn df : Q) : list Q :=
  map (fun k => Qred (f0 + inject_Z (Z.of_nat k) * df))
    (seq 0 (Z.to_nat (Qfloor ((fn - f0) / df)) + 1)).

(** A periodogram that shows the amplitude [shape f] at the frequency
    [f], whatever the series. *)
Definition periodogram (shape : Q -> Q) (f0 fn df : Q) : spectrum :=
  let g := grid f0 fn df in (g, map (fun f => Qred (shape f)) g).

(** A single triangular peak of height [h] at [f_peak], of half width
    [w]. *)
Definition peak (f_peak h w : Q) (f : Q) : Q :=
  Qmax 0 (h * (1 - Qabs (f - f_peak) / w)).

(** A triangle wave of period 1 in place of the sine. *)
Definition wave (x : Q) : Q :=
  let p := x - inject_Z (Qfloor x) in
  if Qle_bool p (1 # 4) then 4 * p
  else if Qle_bool p (3 # 4) then 2 - 4 * p
  else 4 * p - 4.

Fixpoint sum_waves (t : Q) (f a ph : list Q) : Q :=
  match f, a, ph with
  | x :: f', y :: a', z :: ph' => y * wave (x * t + z) + sum_waves t f' a' ph'
  | _, _, _ => 0
  end.

Definition sum_triangles (time f a ph : list Q) : list Q :=
  map (fun t => Qred (sum_waves t f a ph)) time.

Definition total (l : list Q) : Q := fold_right Qplus 0 l.
Definition mean (l : list Q) : Q := total l / inject_Z (Z.of_nat (length l)).

(** Ordinary least squares on one chunk. *)
Definition line_fit (t y : list Q) : Q * Q :=
  let mt := mean t in
  let my := mean y in
  let sxy := total (map (fun p => (fst p - mt) * (snd p - my)) (combine t y)) in
  let sxx := total (map (fun x => (x - mt) * (x - mt)) t) in
  let b := sxy / sxx in
  (Qred (my - b * mt), Qred b).

Definition line_pars (time resid : list Q) (i_chunks : chunks)
  : list Q * list Q :=
  let fits :=
    map (fun c => line_fit (slice time (fst c) (snd c))
                           (slice resid (fst c) (snd c))) i_chunks in
  (map fst fits, map snd fits).

Fixpoint line_curve (time const slope : list Q) (i_chunks : chunks) : list Q :=
  match const, slope, i_chunks with
  | c :: const', s :: slope', ch :: i_chunks' =>
      map (fun t => Qred (c + s * t)) (slice time (fst ch) (snd ch))
        ++ line_curve time const' slope' i_chunks'
  | _, _, _ => []
  end.

(** The residual sum of squares plus one per parameter. *)
Definition penalised_rss (resid : list Q) (n_param : Z) : Q :=
  Qred (total (map (fun r => r * r) resid) + inject_Z n_param).

(** A criterion that falls by [gain] with every parameter. *)
Definition gain_per_parameter (gain : Q) (resid : list Q) (n_param : Z) : Q :=
  Qred (- (gain * inject_Z n_param)).

Fixpoint nearest_from (x best : Q) (ibest i : nat) (l : list Q) : nat :=
  match l with
  | [] => ibest
  | y :: l' =>
      if Qlt_bool (Qabs (y - x)) (Qabs (best - x))
      then nearest_from x y i (S i) l'
      else nearest_from x best ibest (S i) l'
  end.

(** Walk from position [i] to a higher neighbour until there is none. *)
Fixpoint climb (fuel : nat) (vals : list Q) (i : nat) : nat :=
  match fuel with
  | O => i
  | S fuel' =>
      let v := nth i vals 0 in
      let up_right :=
        match nth_error vals (S i) with Some r => Qlt_bool v r | None => false end in
      let up_left :=
        match i with
        | O => false
        | S i' => match nth_error vals i' with Some l => Qlt_bool v l | None => false end
        end in
      if up_right then climb fuel' vals (S i)
      else if up_left then climb fuel' vals (i - 1)
      else i
  end.

Definition hill_climb (freqs vals seeds : list Q) : list nat :=
  map (fun x =>
         match freqs with
         | [] => 0%nat
         | y :: freqs' => climb (length vals) vals (nearest_from x y 0 1 freqs')
         end) seeds.

(** The runs of [len] consecutive entries, and all runs of two or more,
    the longer ones first. *)
Definition runs_of {A : Type} (l : list A) (len : nat) : list (list A) :=
  map (fun start => slice l start (start + len)) (seq 0 (length l - len + 1)).

Definition all_runs (close_f : list nat) : list (list nat) :=
  flat_map (fun k => runs_of close_f (length close_f - k))
    (seq 0 (length close_f - 1)).

Definition count_parameters (n_chunks n_sin n_harm : Z) : Z :=
  (2 * n_chunks + 3 * n_sin + n_harm)%Z.

(** The positions whose frequency is within [rayleigh] of [f_n[i]]. *)
Definition within_rayleigh (i : nat) (f_n : list Q) (rayleigh : Q) : list nat :=
  let f_i := nth i f_n 0 in
  where_from 0 (map (fun f => Qlt_bool (Qabs (f - f_i)) rayleigh) f_n).

(** A fitter that changes nothing. *)
Definition no_fit (time flux const slope f_n a_n ph_n : list Q) (i_chunks : chunks)
  : list Q * list Q * list Q * list Q * list Q :=
  (const, slope, f_n, a_n, ph_n).

(** Phases are kept in turns, in [(-1/2, 1/2]]. *)
Definition wrap_turns (ph : Q) : Q :=
  let p := ph - inject_Z (Qfloor ph) in
  Qred (if Qle_bool p (1 # 2) then p else p - 1).

Definition services (shape : Q -> Q) (criterion : list Q -> Z -> Q) : Services :=
  {| scargle := fun _ _ f0 fn df => periodogram shape f0 fn df;
     scargle_parallel := fun _ _ f0 fn df => periodogram shape f0 fn df;
     scargle_noise_spectrum_redux := fun freqs _ _ => map (fun _ => 1) freqs;
     scargle_noise_at_freq := fun fs _ _ _ => map (fun _ => 1) fs;
     scargle_ampl_phase_single := fun _ _ f => (Qred (shape f), 0);
     scargle_ampl_phase :=
       fun _ _ fs => (map (fun f => Qred (shape f)) fs, map (fun _ => 0) fs);
     uphill_local_max := hill_climb;
     consecutive_subsets := all_runs;
     n_parameters := count_parameters;
     f_within_rayleigh := within_rayleigh;
     find_harmonics_tolerance := find_harmonics_tolerance_spec;
     find_harmonics_from_pattern := find_harmonics_tolerance_spec;
     sum_sines := sum_triangles;
     sum_sines_st := sum_triangles;
     linear_curve := line_curve;
     linear_pars := line_pars;
     calc_bic := criterion;
     fit_multi_sinusoid_per_group := no_fit;
     wrap_phase := wrap_turns |}.

(** A series of three points at times 0, 1, 2 (one chunk), searched
    between the frequencies 1/10 and 1/2. *)
Definition series (flux const slope : list Q) (sinusoids : list Sinusoid)
  : TimeSeriesModel :=
  {| time := [0; 1; 2]; flux := flux; i_chunks := [(0, 3)%nat];
     t_tot := 2; f_resolution := 3 # 4; pd_f0 := 1 # 10; pd_fn := 1 # 2;
     const := const; slope := slope; sinusoid := sinusoids |}.

End StandIn.

(** ** Reading a run of the prewhitening loop *)

(** The selection metric and the pending switch of the round begun in a
    state: the first lines of the loop body. *)
Definition round_select (st : LoopState) : string :=
  if ls_switch st && negb (condition_1 st) then "sn"%string else ls_select st.

Definition round_switch (st : LoopState) : bool :=
  if ls_switch st && negb (condition_1 st) then false else ls_switch st.

(** The BIC on record after some rounds (newest first): the one of the last
    accepted round, or the initial one. *)
Fixpoint recorded (bic_init : Q) (rounds : list Round) : Q :=
  match rounds with
  | [] => bic_init
  | r :: older => if rd_accepted r then rd_bic r else recorded bic_init older
  end.

(** All the values that were on record, newest first. *)
Fixpoint history (bic_init : Q) (rounds : list Round) : list Q :=
  match rounds with
  | [] => [bic_init]
  | r :: older =>
      if rd_accepted r then rd_bic r :: history bic_init older
      else history bic_init older
  end.

(** Every round compared its tentative BIC with the BIC on record. *)
Fixpoint compared_with_record (bic_init : Q) (rounds : list Round) : Prop :=
  match rounds with
  | [] => True
  | r :: older =>
      rd_bic_prev r = recorded bic_init older
      /\ compared_with_record bic_init older
  end.



(** The number of places at which the selection metric of a round differs
    from the one of the round before it. *)
Fixpoint switches (rounds : list Round) : nat :=
  match rounds with
  | r :: ((r' :: _) as older) =>
      (if String.eqb (rd_select r) (rd_select r') then 0 else 1) + switches older
  | _ => 0
  end.





(** The series, its chunks and the derived scalars of two models agree:
    only the trend and the sinusoids may differ. *)
Definition same_series (m m' : TimeSeriesModel) : Prop :=
  time m' = time m /\ flux m' = flux m /\ i_chunks m' = i_chunks m
  /\ t_tot m' = t_tot m /\ f_resolution m' = f_resolution m
  /\ pd_f0 m' = pd_f0 m /\ pd_fn m' = pd_fn m.

(** The positions of an array of length [n] that are not in [removed], in
    increasing order. *)
Definition kept (n : nat) (removed : list nat) : list nat :=
  filter (fun i => negb (mem i removed)) (seq 0 n).

(** The domain error of [fix_harmonic_frequency]. *)
Definition no_harmonics_found : exn := ValueError "No harmonic frequencies found".

(** A computation that does not raise that error. *)
Definition raises_no_domain_error {A : Type} (c : result A) : Prop :=
  c <> Raise no_harmonics_found.

(** The amplitudes and phases of the fixed harmonics were computed by the
    periodogram at their frequencies, each on some residual of the series. *)
Inductive refitted (svc : Services) (time : list Q)
  : list Q -> list Q -> list Q -> Prop :=
| refitted_none : refitted svc time [] [] []
| refitted_more (fs amps phs resid : list Q) (f a ph : Q) :
    refitted svc time fs amps phs ->
    scargle_ampl_phase_single svc time resid f = (a, ph) ->
    refitted svc time (fs ++ [f]) (amps ++ [a]) (phs ++ [ph]).

(** The rounds of a run under the BIC criterion are compared with the
    BIC on record and judged by the rounded drop. *)
Definition judged_by_drop (bic_thr bic_init : Q) (st : LoopState) : Prop :=
  compared_with_record bic_init (ls_rounds st)
  /\ ls_bic_prev st = recorded bic_init (ls_rounds st)
  /\ forall r, In r (ls_rounds st) ->
       rd_accepted r = bic_accepts bic_thr (rd_bic_prev r) (rd_bic r).


(** After a round, [condition_2] says whether fewer than [n_extract]
    sinusoids have been added. *)
Definition counts_added (n_extract : Z) (n_sin_init : nat) (st : LoopState) : Prop :=
  (ls_rounds st = [] /\ condition_1 st = true /\ condition_2 st = true)
  \/ (ls_rounds st <> []
      /\ condition_2 st
         = (Z.of_nat (n_sin (ls_model st)) - Z.of_nat n_sin_init <? n_extract)%Z).

(** The positions marked for removal are distinct positions of the
    arrays. *)
Definition marks_positions (f_n : list Q) (st : RemoveState) : Prop :=
  NoDup (remove_single st)
  /\ forall i, In i (remove_single st) -> (i < length f_n)%nat.

(** ** The claims as they are stated *)

(** The claim that every accepted round lowers the BIC on record by more
    than the threshold. *)
Definition accepted_rounds_beat_threshold (bic_thr : Q) (rounds : list Round) : Prop :=
  forall r, In r rounds -> rd_accepted r = true -> rd_bic r < rd_bic_prev r - bic_thr.

(** The claim that a run ends by a rejection only: a finished run has
    rejected its last candidate. *)
Definition stops_only_by_criterion (o : outcome) : Prop :=
  forall st, o = Finished st -> condition_1 st = false.


(** The claim that a call which rejects its only candidate returns the
    sinusoid arrays and the trend it was called with. *)
Definition rejection_restores (ts_model : TimeSeriesModel) (o : outcome) : Prop :=
  forall st r,
    o = Finished st -> ls_rounds st = [r] -> rd_accepted r = false ->
    f_n (ls_model st) = f_n ts_model
    /\ a_n (ls_model st) = a_n ts_model
    /\ ph_n (ls_model st) = ph_n ts_model
    /\ const (ls_model st) = const ts_model
    /\ slope (ls_model st) = slope ts_model.

(** The claim that the first scan of [extract_approx] reaches 25
    resolution units of [1.5 / t_tot] to either side of [f_approx]. *)
Definition scans_25_resolution_units (time : list Q) (f_approx : Q) : Prop :=
  forall t_tot df,
    np_ptp time = Ok t_tot -> freq_step time = Ok df ->
    let f_resolution := (15 # 10) / t_tot in
    fst (approx_window f_approx df)
    == Qmax (f_approx - 25 * f_resolution) (df / 10)
    /\ snd (approx_window f_approx df) == f_approx + 25 * f_resolution.



(** ** Series and models for the worked examples *)

Module Limit.

(** A flat series of three points under a criterion that falls by one
    with every parameter, fitted at each step by a fitter that has
    converged: every candidate is accepted. *)
Definition svc : Services :=
  StandIn.services (fun _ => 0) (StandIn.gain_per_parameter 1).

Definition candidate : Sinusoid :=
  {| freq := 1 # 20; ampl := 0; phase := 0; is_harmonic := false; included := true |}.

Definition model (j : nat) : TimeSeriesModel :=
  StandIn.series [0; 0; 0] [0] [0] (repeat candidate j).

(** The state after [j] accepted rounds. *)
Definition state_at (j : nat) (rounds : list Round) : LoopState :=
  {| ls_model := model j; ls_select := "a"; ls_switch := false;
     condition_1 := true;
     condition_2 := (Z.of_nat j - Z.of_nat 0 <? 10 ^ 6)%Z;
     ls_bic_prev := bic svc (model j);
     ls_rounds := rounds |}.

End Limit.

Module Switch.

(** A series that is a wave of amplitude 3 at the frequency 1/4, under a
    periodogram with a peak of height 5 at 0.45 and one of height 3 at
    0.25, and a noise spectrum that is ten times higher from 0.4 on: the
    amplitude selects the peak at 0.45, the signal-to-noise the one at
    0.25. *)
Definition base : Services :=
  StandIn.services
    (fun f => Qmax (StandIn.peak (9 # 20) 5 (1 # 20) f)
                   (StandIn.peak (1 # 4) 3 (1 # 20) f))
    StandIn.penalised_rss.

Definition svc : Services :=
  {| scargle := scargle base;
     scargle_parallel := scargle_parallel base;
     scargle_noise_spectrum_redux :=
       fun freqs _ _ => map (fun f => if Qle_bool (2 # 5) f then 10 else 1) freqs;
     scargle_noise_at_freq := scargle_noise_at_freq base;
     scargle_ampl_phase_single := scargle_ampl_phase_single base;
     scargle_ampl_phase := scargle_ampl_phase base;
     uphill_local_max := uphill_local_max base;
     consecutive_subsets := consecutive_subsets base;
     n_parameters := n_parameters base;
     f_within_rayleigh := f_within_rayleigh base;
     find_harmonics_tolerance := find_harmonics_tolerance base;
     find_harmonics_from_pattern := find_harmonics_from_pattern base;
     sum_sines := sum_sines base;
     sum_sines_st := sum_sines_st base;
     linear_curve := linear_curve base;
     linear_pars := linear_pars base;
     calc_bic := calc_bic base;
     fit_multi_sinusoid_per_group := fit_multi_sinusoid_per_group base;
     wrap_phase := wrap_phase base |}.

Definition model : TimeSeriesModel := StandIn.series [0; 3; 0] [1] [0] [].

End Switch.

Module Rollback.

(** A flat series of value 1 that comes with one sinusoid and a trend of
    intercept 1.1: its only candidate is rejected. *)
Definition svc : Services := StandIn.services (fun _ => 0) StandIn.penalised_rss.

Definition before : TimeSeriesModel :=
  StandIn.series [1; 1; 1] [11 # 10] [0]
    [{| freq := 1 # 4; ampl := 1 # 10; phase := 1 # 4;
        is_harmonic := false; included := true |}].

Definition after : LoopState :=
  final_state (extract_sinusoids svc 5 before 2 0 "bic" "a" 0 false true).

End Rollback.

Module Edge.

(** Spectra with their peak just outside the scanned range, on a time base
    of 1 (so that [df = 0.1]): a peak at 2.05 above the range from 1 to 2,
    one at 0.95 below it, a peak at 2.1 behind a dip at 2, and a broad peak
    at 3.55 outside the window from 0.01 to 3.5 around 1. *)
Definition above : Services :=
  StandIn.services (StandIn.peak (41 # 20) 1 (1 # 2)) StandIn.penalised_rss.

Definition below : Services :=
  StandIn.services (StandIn.peak (19 # 20) 1 (1 # 2)) StandIn.penalised_rss.

Definition behind_dip : Services :=
  StandIn.services
    (fun f => Qmax (StandIn.peak (21 # 10) 1 (1 # 10) f) (StandIn.peak 1 (1 # 2) 1 f))
    StandIn.penalised_rss.

Definition outside_window : Services :=
  StandIn.services (StandIn.peak (71 # 20) 1 3) StandIn.penalised_rss.

End Edge.

Module Pair.


(** The same two sinusoids as harmonics. *)
Definition harmonic_pair : TimeSeriesModel :=
  StandIn.series [1; 1; 1] [1] [0]
    [{| freq := 1 # 4; ampl := 0; phase := 0; is_harmonic := true; included := true |};
     {| freq := 3 # 10; ampl := 0; phase := 0; is_harmonic := true; included := true |}].

(** A criterion that rewards every parameter. *)
Definition rewarding : Services :=
  StandIn.services (fun _ => 0) (StandIn.gain_per_parameter 1).



End Pair.

Module Reduce.

(** A series that is a wave of amplitude 3 at the frequency 1/4, modelled
    with that wave and two sinusoids of no amplitude. *)
Definition svc : Services := StandIn.services (fun _ => 0) StandIn.penalised_rss.

End Reduce.

Module Fixing.

Definition svc : Services :=
  StandIn.services (StandIn.peak (81 # 50) 1 (1 # 2)) StandIn.penalised_rss.

End Fixing.

Module Fixed.

(** Four sinusoids on a time base of 2, the period 1: the frequencies 1.1
    and 0.9 are candidates for the first harmonic, 2.2 for the second, and
    1.6 is no harmonic; the periodogram has its peak at 1.62. *)
Definition svc : Services := Fixing.svc.

Definition f_in : list Q := [11 # 10; 8 # 5; 9 # 10; 11 # 5].


End Fixed.

Module Drift.

(** Two sinusoids on a time base of 2 and an orbital frequency of
    1.0000000001: the frequency 1.1 is a candidate for the first harmonic
    and 1.6 is no harmonic; the periodogram has its peak at 2, which is
    0.0000000002 below the second harmonic. *)
Definition svc : Services :=
  StandIn.services (StandIn.peak 2 1 (1 # 2)) StandIn.penalised_rss.

Definition p_orb : Q := 10000000000 # 10000000001.

Definition f_in : list Q := [8 # 5; 11 # 10].

End Drift.

(** * Properties *)

(** ** The monad and the comparisons *)

Lemma bind_Ok {A B : Type} (c : result A) (k : A -> result B) (b : B) :
  bind c k = Ok b -> exists a, c = Ok a /\ k a = Ok b.
Proof.
  destruct c as [a | e |]; simpl; intros H; try discriminate.
  exists a; split; [reflexivity | exact H].
Qed.

Lemma Qlt_bool_iff (a b : Q) : Qlt_bool a b = true <-> a < b.
Proof.
  unfold Qlt_bool. rewrite negb_true_iff. split.
  - intros H. apply Qnot_le_lt. intros Hle.
    apply Qle_bool_iff in Hle. congruence.
  - intros H. destruct (Qle_bool b a) eqn:E; [| reflexivity].
    apply Qle_bool_iff in E. exfalso. exact (Qlt_not_le _ _ H E).
Qed.

Lemma Qgt_bool_iff (a b : Q) : Qgt_bool a b = true <-> b < a.
Proof. unfold Qgt_bool. apply Qlt_bool_iff. Qed.

Lemma Qgt_bool_false (a b : Q) : Qgt_bool a b = false <-> a <= b.
Proof.
  split.
  - intros H. apply Qnot_lt_le. intros Hlt.
    apply Qgt_bool_iff in Hlt. congruence.
  - intros H. destruct (Qgt_bool a b) eqn:E; [| reflexivity].
    apply Qgt_bool_iff in E. exfalso. exact (Qlt_not_le _ _ E H).
Qed.

(** ** Rounding *)

(** [rint] is within a half of its argument. *)
Lemma rint_close (x : Q) :
  inject_Z (rint x) - (1 # 2) <= x /\ x <= inject_Z (rint x) + (1 # 2).
Proof.
  unfold rint.
  pose proof (Qfloor_le x) as Hlo.
  pose proof (Qlt_floor x) as Hhi.
  rewrite inject_Z_plus in Hhi. change (inject_Z 1) with 1 in Hhi.
  destruct (Qcompare (x - inject_Z (Qfloor x)) (1 # 2)) eqn:E.
  - apply Qeq_alt in E.
    destruct (Z.even (Qfloor x)).
    + split; lra.
    + rewrite inject_Z_plus. change (inject_Z 1) with 1. split; lra.
  - apply Qlt_alt in E. split; lra.
  - apply Qgt_alt in E. rewrite inject_Z_plus. change (inject_Z 1) with 1.
    split; lra.
Qed.

Lemma rint_proper (x y : Q) : x == y -> rint x = rint y.
Proof.
  intros H. unfold rint.
  rewrite (Qfloor_comp _ _ H).
  assert (E : Qcompare (x - inject_Z (Qfloor y)) (1 # 2)
              = Qcompare (y - inject_Z (Qfloor y)) (1 # 2)).
  { apply Qcompare_comp; [rewrite H |]; reflexivity. }
  rewrite E. reflexivity.
Qed.

Lemma np_round_proper (x y : Q) (d : nat) : x == y -> np_round x d = np_round y d.
Proof.
  intros H. unfold np_round.
  set (scale := inject_Z (10 ^ Z.of_nat d)).
  rewrite (rint_proper (x * scale) (y * scale)); [reflexivity |].
  rewrite H. reflexivity.
Qed.

(** Rounding to two decimals moves a number by at most 0.005. *)
Lemma np_round_2_close (x : Q) :
  np_round x 2 - (1 # 200) <= x /\ x <= np_round x 2 + (1 # 200).
Proof.
  unfold np_round. change (inject_Z (10 ^ Z.of_nat 2)) with 100.
  destruct (rint_close (x * 100)) as [Hlo Hhi].
  set (n := inject_Z (rint (x * 100))) in *.
  split; unfold Qdiv; change (/ 100) with (1 # 100); lra.
Qed.

(** A rounded number above a threshold on the grid of hundredths leaves its
    argument above the threshold. *)
Lemma np_round_2_above_grid (x : Q) (k : Z) :
  inject_Z k / 100 < np_round x 2 -> inject_Z k / 100 < x.
Proof.
  unfold np_round. change (inject_Z (10 ^ Z.of_nat 2)) with 100.
  intros H.
  destruct (rint_close (x * 100)) as [Hlo _].
  assert (Hk : (k < rint (x * 100))%Z).
  { rewrite Zlt_Qlt. unfold Qdiv in H. change (/ 100) with (1 # 100) in H. lra. }
  assert (Hk' : inject_Z k + 1 <= inject_Z (rint (x * 100))).
  { change 1 with (inject_Z 1). rewrite <- inject_Z_plus.
    rewrite <- Zle_Qle. lia. }
  unfold Qdiv. change (/ 100) with (1 # 100). lra.
Qed.

Lemma np_round_2_positive (x : Q) : 0 < np_round x 2 -> 0 < x.
Proof.
  intros H.
  assert (E : inject_Z 0 / 100 == 0) by reflexivity.
  rewrite <- E. apply np_round_2_above_grid. rewrite E. exact H.
Qed.

(** ** One round of the prewhitening loop *)

Section LoopFacts.

Variable svc : Services.
Variables (bic_thr snr_thr : Q) (stop_crit : string).
Variables (fit_each_step replace_each_step : bool).
Variables (n_extract : Z) (n_sin_init : nat) (fuel_refine : nat).

Let body :=
  loop_body svc bic_thr snr_thr stop_crit fit_each_step replace_each_step
    n_extract n_sin_init fuel_refine.
Let run :=
  loop svc bic_thr snr_thr stop_crit fit_each_step replace_each_step
    n_extract n_sin_init fuel_refine.

(** What a round that returns leaves behind. *)
Lemma loop_body_Ok (st st' : LoopState) :
  body st = Ok st' ->
  exists (m_t : TimeSeriesModel) (cond1 : bool),
    ls_select st' = round_select st
    /\ ls_switch st' = round_switch st
    /\ condition_1 st' = cond1
    /\ condition_2 st'
       = (Z.of_nat (n_sin (ls_model st')) - Z.of_nat n_sin_init <? n_extract)%Z
    /\ ls_rounds st'
       = {| rd_select := round_select st; rd_bic_prev := ls_bic_prev st;
            rd_bic := bic svc m_t; rd_accepted := cond1 |} :: ls_rounds st
    /\ (String.eqb stop_crit "snr" = false ->
        cond1 = bic_accepts bic_thr (ls_bic_prev st) (bic svc m_t))
    /\ (if cond1
        then ls_model st' = m_t /\ ls_bic_prev st' = bic svc m_t
        else ls_bic_prev st' = ls_bic_prev st
             /\ exists m_r,
                 set_sinusoids svc m_t (f_n (ls_model st)) (a_n (ls_model st))
                   (ph_n (ls_model st)) = Ok m_r
                 /\ ls_model st' = update_linear_model svc m_r).
Proof.
  unfold body, loop_body, round_select, round_switch.
  destruct (ls_switch st && negb (condition_1 st)) eqn:Esw;
    unfold get_sinusoid_parameters; intros H;
    apply bind_Ok in H; destruct H as [[[f_i a_i] ph_i] [_ H]];
    apply bind_Ok in H; destruct H as [m1 [_ H]];
    apply bind_Ok in H; destruct H as [m2 [_ H]];
    apply bind_Ok in H; destruct H as [m_t [_ H]];
    apply bind_Ok in H; destruct H as [cond1 [Hc H]];
    apply bind_Ok in H; destruct H as [[m' b'] [Hm H]];
    injection H as H; subst st'; simpl;
    exists m_t, cond1;
    (repeat split; try reflexivity;
     [ intros Hs; rewrite Hs in Hc; injection Hc as Hc; symmetry; exact Hc
     | destruct cond1;
       [ injection Hm as Hm1 Hm2; subst; split; reflexivity
       | apply bind_Ok in Hm; destruct Hm as [m_r [Hr Hm]];
         injection Hm as Hm1 Hm2; subst; split; [reflexivity |];
         exists m_r; split; [exact Hr | reflexivity] ] ]).
Qed.

(** A property that every round preserves holds at the end of every run,
    however it ends. *)
Lemma loop_invariant (P : LoopState -> Prop) :
  (forall st st', loop_condition st = true -> P st -> body st = Ok st' -> P st') ->
  forall (fuel : nat) (st : LoopState), P st -> P (final_state (run fuel st)).
Proof.
  intros Hstep. induction fuel as [| fuel IH]; intros st HP; unfold run; simpl.
  - destruct (loop_condition st); simpl; exact HP.
  - destruct (loop_condition st) eqn:Ec; simpl; [| exact HP].
    fold body. destruct (body st) as [st' | e |] eqn:Eb; simpl; try exact HP.
    apply IH. exact (Hstep st st' Ec HP Eb).
Qed.

(** A run that finishes does so with the loop condition false. *)
Lemma loop_finished (fuel : nat) (st st' : LoopState) :
  run fuel st = Finished st' -> loop_condition st' = false.
Proof.
  revert st. induction fuel as [| fuel IH]; intros st; unfold run; simpl.
  - destruct (loop_condition st) eqn:Ec; intros H; [discriminate |].
    injection H as H. subst. exact Ec.
  - destruct (loop_condition st) eqn:Ec.
    + fold body. destruct (body st) as [st1 | e |]; try discriminate.
      apply IH.
    + intros H. injection H as H. subst. exact Ec.
Qed.

End LoopFacts.

(** ** The BIC on record *)

Lemma history_head (bic_init : Q) (rounds : list Round) :
  exists older, history bic_init rounds = recorded bic_init rounds :: older.
Proof.
  induction rounds as [| r rounds IH]; simpl.
  - exists []. reflexivity.
  - destruct (rd_accepted r).
    + eexists. reflexivity.
    + exact IH.
Qed.

(** When every accepted round has lowered the BIC on record, the values on
    record fall strictly with time. *)
Lemma history_falls (bic_init : Q) (rounds : list Round) :
  compared_with_record bic_init rounds ->
  (forall r, In r rounds -> rd_accepted r = true -> rd_bic r < rd_bic_prev r) ->
  Sorted Qlt (history bic_init rounds).
Proof.
  induction rounds as [| r rounds IH]; simpl; intros Hc Hacc.
  - constructor; constructor.
  - destruct Hc as [Hprev Hc].
    assert (IH' : Sorted Qlt (history bic_init rounds)).
    { apply IH; [exact Hc |]. intros r' Hin. apply Hacc. right. exact Hin. }
    destruct (rd_accepted r) eqn:Ea; [| exact IH'].
    constructor; [exact IH' |].
    destruct (history_head bic_init rounds) as [older Hh]. rewrite Hh.
    constructor. rewrite <- Hprev. apply Hacc; [left; reflexivity | exact Ea].
Qed.

Section BicRule.

Variable svc : Services.
Variables (bic_thr snr_thr : Q).
Variables (fit_each_step replace_each_step : bool).
Variables (n_extract : Z) (n_sin_init : nat) (fuel_refine : nat).
Variable bic_init : Q.

Lemma judged_by_drop_kept (fuel : nat) (st : LoopState) :
  judged_by_drop bic_thr bic_init st ->
  judged_by_drop bic_thr bic_init
    (final_state
       (loop svc bic_thr snr_thr "bic" fit_each_step replace_each_step
          n_extract n_sin_init fuel_refine fuel st)).
Proof.
  apply loop_invariant. clear st.
  intros st st' _ [Hc [Hp Hj]] Hb.
  apply loop_body_Ok in Hb.
  destruct Hb as [m_t [cond1 [_ [_ [_ [_ [Hr [Hcond Hm]]]]]]]].
  specialize (Hcond eq_refl).
  unfold judged_by_drop. rewrite Hr. simpl. repeat split.
  - exact Hp.
  - exact Hc.
  - destruct cond1; destruct Hm as [Hm1 Hm2].
    + tauto.
    + rewrite Hm1. exact Hp.
  - intros r [Hr' | Hin]; [subst r; simpl; exact Hcond | apply Hj; exact Hin].
Qed.

End BicRule.

(** What the rounded comparison gives for one round. *)
Lemma bic_accepts_iff (bic_thr bic_prev bic : Q) :
  bic_accepts bic_thr bic_prev bic = true
  <-> bic_thr < np_round (bic_prev - bic) 2.
Proof. unfold bic_accepts. apply Qgt_bool_iff. Qed.

Lemma bic_accepts_drop (bic_thr bic_prev bic : Q) :
  bic_accepts bic_thr bic_prev bic = true ->
  bic < bic_prev - bic_thr + (1 # 200).
Proof.
  intros H. apply bic_accepts_iff in H.
  destruct (np_round_2_close (bic_prev - bic)) as [Hlo _]. lra.
Qed.

Lemma bic_accepts_drop_grid (bic_thr bic_prev bic : Q) (k : Z) :
  bic_thr == inject_Z k / 100 ->
  bic_accepts bic_thr bic_prev bic = true ->
  bic < bic_prev - bic_thr.
Proof.
  intros Hk H. apply bic_accepts_iff in H. rewrite Hk in H.
  apply np_round_2_above_grid in H. rewrite Hk. lra.
Qed.

Lemma bic_accepts_falls (bic_thr bic_prev bic : Q) :
  0 <= bic_thr ->
  bic_accepts bic_thr bic_prev bic = true ->
  bic < bic_prev.
Proof.
  intros H0 H. apply bic_accepts_iff in H.
  assert (Hpos : 0 < bic_prev - bic).
  { apply np_round_2_positive. lra. }
  lra.
Qed.

(** C1, as stated, fails: with [bic_thr = 2.008] a candidate that lowers the
    BIC by 2.006 is accepted, because the drop is rounded to 2.01 before it
    is compared.  The run is one round on a flat series of three points,
    under a criterion that falls by 2.006 with each sinusoid. *)
Lemma accepted_drop_within_threshold :
  ~ accepted_rounds_beat_threshold (251 # 125)
      (ls_rounds
         (final_state
            (extract_sinusoids
               (StandIn.services (fun _ => 0)
                  (StandIn.gain_per_parameter (1003 # 1500)))
               5 (StandIn.series [0; 0; 0] [0] [0] [])
               (251 # 125) 0 "bic" "a" 1 false false))).
Proof.
  intros H.
  assert (Hlt : (-1003 # 300) < (-1003 # 750) - (251 # 125)).
  { apply (H {| rd_select := "a"; rd_bic_prev := -1003 # 750;
                rd_bic := -1003 # 300; rd_accepted := true |}).
    - vm_compute. left. reflexivity.
    - reflexivity. }
  revert Hlt. vm_compute. discriminate.
Qed.

(** C1, amended: under the BIC criterion every round of [extract_sinusoids]
    compares its tentative BIC with the BIC on record and is accepted if and
    only if the drop, rounded to two decimals, exceeds [bic_thr] (so a
    rejected round fails that condition).  An accepted round therefore
    lowers the BIC on record by more than [bic_thr - 0.005], and by more than
    [bic_thr] itself when [bic_thr] is a whole number of hundredths, as the
    default 2 is; when [bic_thr] is not negative the BIC on record falls
    strictly from one accepted round to the next.  This holds for the rounds
    of every run, finished or not. *)
Theorem extract_sinusoids_bic_rule (svc : Services) (fuel : nat)
  (ts_model : TimeSeriesModel) (bic_thr snr_thr : Q) (select : string)
  (n_extract : Z) (fit_each_step replace_each_step : bool) :
  let rounds :=
    ls_rounds
      (final_state
         (extract_sinusoids svc fuel ts_model bic_thr snr_thr "bic" select
            n_extract fit_each_step replace_each_step)) in
  let bic_init := bic svc ts_model in
  compared_with_record bic_init rounds
  /\ (forall r, In r rounds ->
        (rd_accepted r = true <-> bic_thr < np_round (rd_bic_prev r - rd_bic r) 2)
        /\ (rd_accepted r = true -> rd_bic r < rd_bic_prev r - bic_thr + (1 # 200))
        /\ (rd_accepted r = true ->
            forall k : Z, bic_thr == inject_Z k / 100 ->
                          rd_bic r < rd_bic_prev r - bic_thr))
  /\ (0 <= bic_thr -> Sorted Qlt (history bic_init rounds)).
Proof.
  intros rounds bic_init.
  assert (J : judged_by_drop bic_thr bic_init
                (final_state
                   (extract_sinusoids svc fuel ts_model bic_thr snr_thr "bic" select
                      n_extract fit_each_step replace_each_step))).
  { unfold extract_sinusoids.
    destruct (String.eqb select "hybrid");
      apply judged_by_drop_kept; (split; [exact I | split; [reflexivity |]]);
      intros r [].  }
  destruct J as [Hc [_ Hj]]. fold rounds in Hc, Hj.
  split; [exact Hc |]. split.
  - intros r Hin. specialize (Hj r Hin). rewrite Hj. repeat split.
    + apply bic_accepts_iff.
    + apply bic_accepts_iff.
    + apply bic_accepts_drop.
    + intros Ha k Hk. exact (bic_accepts_drop_grid _ _ _ k Hk Ha).
  - intros H0. apply history_falls; [exact Hc |].
    intros r Hin Ha. rewrite (Hj r Hin) in Ha.
    exact (bic_accepts_falls _ _ _ H0 Ha).
Qed.

(** ** The hybrid selection *)



Section Hybrid.

Variable svc : Services.
Variables (bic_thr snr_thr : Q) (stop_crit : string).
Variables (fit_each_step replace_each_step : bool).
Variables (n_extract : Z) (n_sin_init : nat) (fuel_refine : nat).

Let body :=
  loop_body svc bic_thr snr_thr stop_crit fit_each_step replace_each_step
    n_extract n_sin_init fuel_refine.





End Hybrid.



Section SwitchFacts.

Import Switch.


End SwitchFacts.


Lemma hybrid_switches_once_example :
  let o := extract_sinusoids Switch.svc 5 Switch.model (5 # 2) 0 "bic" "hybrid" 1
             false false in
  map rd_select (ls_rounds (final_state o)) = ["sn"; "a"]%string
  /\ map rd_accepted (ls_rounds (final_state o)) = [true; false]
  /\ switches (ls_rounds (final_state o)) = 1%nat.
Proof. vm_compute. repeat split. Qed.

(** ** Setting the sinusoids *)

Section Rows.

Variable svc : Services.

(** The rows built from three arrays carry these arrays, the phases
    wrapped. *)
Lemma rows_parameters (f a ph : list Q) (old r : list Sinusoid) :
  rows svc f a ph old = Ok r ->
  map freq r = f /\ map ampl r = a /\ map phase r = map (wrap_phase svc) ph.
Proof.
  revert a ph old r.
  induction f as [| x f IH]; intros [| y a] [| z ph] old r H;
    simpl in H; try discriminate.
  - injection H as H. subst r. repeat split.
  - apply bind_Ok in H. destruct H as [r' [Hr H]].
    injection H as H. subst r. simpl.
    destruct (IH _ _ _ _ Hr) as [Hf [Ha Hp]].
    rewrite Hf, Ha, Hp. repeat split.
Qed.

(** Setting a set of included sinusoids with wrapped phases to its own
    parameters changes nothing. *)
Lemma rows_self (l : list Sinusoid) :
  (forall s, In s l -> included s = true /\ wrap_phase svc (phase s) = phase s) ->
  rows svc (map freq l) (map ampl l) (map phase l) l = Ok l.
Proof.
  induction l as [| s l IH]; intros H; simpl; [reflexivity |].
  rewrite IH; [| intros s' Hin; apply H; right; exact Hin].
  simpl. destruct (H s (or_introl eq_refl)) as [Hi Hw].
  rewrite Hw. destruct s as [f a p h i]. simpl in *. subst i. reflexivity.
Qed.

End Rows.

(** ** The extraction limit *)

Section LimitFacts.

Import Limit.

Lemma filter_repeat {A : Type} (p : A -> bool) (x : A) (n : nat) :
  filter p (repeat x n) = if p x then repeat x n else [].
Proof.
  induction n as [| n IH]; simpl.
  - destruct (p x); reflexivity.
  - rewrite IH. destruct (p x); reflexivity.
Qed.

Lemma limit_active (j : nat) : active (model j) = repeat candidate j.
Proof. unfold active, model. cbn [sinusoid StandIn.series]. rewrite filter_repeat. reflexivity. Qed.

Lemma limit_n_param (j : nat) : n_param svc (model j) = (2 + 3 * Z.of_nat j)%Z.
Proof.
  unfold n_param. rewrite limit_active, !filter_repeat.
  change (n_parameters svc) with StandIn.count_parameters.
  unfold StandIn.count_parameters.
  cbn [is_harmonic candidate negb length model StandIn.series i_chunks].
  rewrite repeat_length. lia.
Qed.

Lemma limit_bic (j : nat) : bic svc (model j) == - inject_Z (2 + 3 * Z.of_nat j).
Proof.
  unfold bic. rewrite limit_n_param.
  change (calc_bic svc) with (StandIn.gain_per_parameter 1).
  unfold StandIn.gain_per_parameter. rewrite Qred_correct. ring.
Qed.

Lemma limit_accepted (j : nat) :
  bic_accepts 2 (bic svc (model j)) (bic svc (model (S j))) = true.
Proof.
  apply bic_accepts_iff.
  rewrite (np_round_proper _ 3).
  - vm_compute. reflexivity.
  - rewrite !limit_bic. rewrite Nat2Z.inj_succ.
    unfold Z.succ. rewrite !inject_Z_plus, !inject_Z_mult, !inject_Z_plus.
    simpl inject_Z at 1. ring.
Qed.

Lemma repeat_snoc {A : Type} (x : A) (n : nat) : repeat x n ++ [x] = repeat x (S n).
Proof. induction n as [| n IH]; simpl; [| rewrite IH]; reflexivity. Qed.

Lemma limit_extracted (j : nat) (resid : list Q) :
  extract_single svc (time (model j)) resid (pd_f0 (model j)) (pd_fn (model j)) "a"
  = Ok (1 # 20, 0, 0).
Proof. vm_compute. reflexivity. Qed.

Lemma limit_added (j : nat) :
  add_sinusoids svc (model j) [1 # 20] [0] [0] = Ok (model (S j)).
Proof.
  unfold add_sinusoids, model, with_sinusoid, StandIn.series.
  cbn [rows bind ret sinusoid time flux i_chunks t_tot f_resolution pd_f0 pd_fn
       const slope tl].
  rewrite <- repeat_snoc. reflexivity.
Qed.

Lemma limit_fitted (fuel_refine j : nat) :
  improve svc true fuel_refine (model j) = Ok (model j).
Proof.
  unfold improve, set_sinusoids, get_parameters.
  change (fit_multi_sinusoid_per_group svc) with StandIn.no_fit.
  unfold StandIn.no_fit.
  change (sinusoid (set_linear_model (model j) (const (model j)) (slope (model j))))
    with (repeat candidate j).
  change (f_n (model j)) with (map freq (repeat candidate j)).
  change (a_n (model j)) with (map ampl (repeat candidate j)).
  change (ph_n (model j)) with (map phase (repeat candidate j)).
  rewrite rows_self; [reflexivity |].
  intros s Hin. apply repeat_spec in Hin. subst s. split; reflexivity.
Qed.

Lemma limit_n_sin (j : nat) : n_sin (model j) = j.
Proof. unfold n_sin, model. cbn [sinusoid StandIn.series]. apply repeat_length. Qed.

Lemma limit_round (fuel_refine j : nat) (rounds : list Round) :
  loop_body svc 2 0 "bic" true false (10 ^ 6) 0 fuel_refine (state_at j rounds)
  = Ok (state_at (S j)
          ({| rd_select := "a"; rd_bic_prev := bic svc (model j);
              rd_bic := bic svc (model (S j)); rd_accepted := true |} :: rounds)).
Proof.
  unfold loop_body, state_at, get_sinusoid_parameters.
  cbn [ls_switch condition_1 ls_select ls_model ls_bic_prev ls_rounds andb negb].
  rewrite limit_extracted. cbn [bind].
  rewrite limit_added. cbn [bind].
  rewrite limit_fitted. cbn [bind replace_close ret].
  change (("bic" =? "snr")%string) with false. cbv iota. cbn [bind].
  rewrite limit_accepted. cbn [bind ret].
  rewrite limit_n_sin. reflexivity.
Qed.

Lemma run_to_limit (fuel_refine k : nat) :
  forall (j : nat) (rounds : list Round) (fuel : nat),
    (Z.of_nat j + Z.of_nat k = 10 ^ 6)%Z -> (k <= fuel)%nat ->
    exists rounds',
      loop svc 2 0 "bic" true false (10 ^ 6) 0 fuel_refine fuel (state_at j rounds)
      = Finished (state_at (j + k) rounds').
Proof.
  induction k as [| k IH]; intros j rounds fuel Hj Hk.
  - exists rounds. rewrite Nat.add_0_r.
    assert (Ec : loop_condition (state_at j rounds) = false).
    { unfold loop_condition, state_at. cbn [condition_1 ls_switch condition_2 orb andb].
      apply Z.ltb_ge. lia. }
    destruct fuel; cbn [loop]; rewrite Ec; reflexivity.
  - assert (Ec : loop_condition (state_at j rounds) = true).
    { unfold loop_condition, state_at. cbn [condition_1 ls_switch condition_2 orb andb].
      apply Z.ltb_lt. lia. }
    destruct fuel as [| fuel]; [lia |].
    cbn [loop]. rewrite Ec, limit_round.
    destruct (IH (S j) (
      {| rd_select := "a"; rd_bic_prev := bic svc (model j);
         rd_bic := bic svc (model (S j)); rd_accepted := true |} :: rounds) fuel)
      as [rounds' E]; [lia | lia |].
    exists rounds'. rewrite E. f_equal. f_equal. lia.
Qed.

Lemma limit_run_from_start (fuel : nat) :
  extract_sinusoids svc fuel (model 0) 2 0 "bic" "a" 0 true false
  = loop svc 2 0 "bic" true false (10 ^ 6) 0 fuel fuel (state_at 0 []).
Proof. reflexivity. Qed.

(** C8, as stated, fails: with [n_extract = 0] the run on this series
    accepts a million candidates and then stops, its last candidate
    accepted: it is the extraction limit that ends it. *)
Lemma stops_at_the_limit :
  ~ stops_only_by_criterion
      (extract_sinusoids svc (Z.to_nat 1000000) (model 0) 2 0 "bic" "a" 0
         true false).
Proof.
  intros H.
  destruct (run_to_limit (Z.to_nat 1000000) (Z.to_nat 1000000) 0 []
              (Z.to_nat 1000000)) as [rounds E].
  - rewrite Z2Nat.id; [reflexivity | lia].
  - apply le_n.
  - rewrite <- limit_run_from_start in E. specialize (H _ E). discriminate H.
Qed.


End LimitFacts.

Section ExtractionLimit.

Variable svc : Services.
Variables (bic_thr snr_thr : Q) (stop_crit : string).
Variables (fit_each_step replace_each_step : bool).
Variables (n_extract : Z) (n_sin_init : nat) (fuel_refine : nat).

Lemma counts_added_kept (fuel : nat) (st : LoopState) :
  counts_added n_extract n_sin_init st ->
  counts_added n_extract n_sin_init
    (final_state
       (loop svc bic_thr snr_thr stop_crit fit_each_step replace_each_step
          n_extract n_sin_init fuel_refine fuel st)).
Proof.
  apply loop_invariant. clear st.
  intros st st' _ _ Hb.
  apply loop_body_Ok in Hb.
  destruct Hb as [m_t [cond1 [_ [_ [_ [Hc2 [Hr _]]]]]]].
  right. split; [rewrite Hr; discriminate | exact Hc2].
Qed.

End ExtractionLimit.

(** C8, amended: [n_extract = 0] stands for a limit of [10**6].  After every
    round of such a call the loop goes on only while fewer than a million
    sinusoids have been added to the ones the model came with; a run that
    finishes has either rejected its last candidate with no switch of the
    selection pending, or added a million sinusoids. *)
Theorem extraction_limit (svc : Services) (fuel : nat)
  (ts_model : TimeSeriesModel) (bic_thr snr_thr : Q) (stop_crit select : string)
  (fit_each_step replace_each_step : bool) :
  let o :=
    extract_sinusoids svc fuel ts_model bic_thr snr_thr stop_crit select 0
      fit_each_step replace_each_step in
  let added (st : LoopState) :=
    (Z.of_nat (n_sin (ls_model st)) - Z.of_nat (n_sin ts_model))%Z in
  (ls_rounds (final_state o) <> [] ->
   condition_2 (final_state o) = (added (final_state o) <? 10 ^ 6)%Z)
  /\ (forall st, o = Finished st ->
        (condition_1 st = false /\ ls_switch st = false)
        \/ (10 ^ 6 <= added st)%Z).
Proof.
  intros o added.
  assert (J : counts_added (10 ^ 6) (n_sin ts_model) (final_state o)).
  { unfold o, extract_sinusoids. change (0 =? 0)%Z with true. cbv iota.
    destruct (String.eqb select "hybrid");
      apply counts_added_kept; left; repeat split. }
  split.
  - intros Hne. destruct J as [[Hnil _] | [_ Hc2]]; [contradiction | exact Hc2].
  - intros st Ho.
    assert (Hf : loop_condition st = false).
    { unfold o, extract_sinusoids in Ho.
      destruct (String.eqb select "hybrid");
        exact (loop_finished _ _ _ _ _ _ _ _ _ _ _ _ Ho). }
    rewrite Ho in J. simpl in J. unfold loop_condition in Hf.
    destruct J as [[_ [Hc1 Hc2]] | [_ Hc2]].
    + rewrite Hc1, Hc2 in Hf. discriminate.
    + destruct (condition_2 st) eqn:E2.
      * left. rewrite andb_true_r in Hf. apply orb_false_iff in Hf. exact Hf.
      * right. symmetry in Hc2. apply Z.ltb_ge in Hc2. exact Hc2.
Qed.

(** ** The series is never touched *)

Lemma same_series_refl (m : TimeSeriesModel) : same_series m m.
Proof. repeat split. Qed.

Lemma same_series_trans (m1 m2 m3 : TimeSeriesModel) :
  same_series m1 m2 -> same_series m2 m3 -> same_series m1 m3.
Proof.
  unfold same_series. intros H1 H2.
  decompose [and] H1. decompose [and] H2. repeat split; congruence.
Qed.

Lemma same_series_with_sinusoid (m : TimeSeriesModel) (l : list Sinusoid) :
  same_series m (with_sinusoid m l).
Proof. repeat split. Qed.

Lemma same_series_set_linear_model (m : TimeSeriesModel) (c s : list Q) :
  same_series m (set_linear_model m c s).
Proof. repeat split. Qed.

Lemma same_series_update_linear_model (svc : Services) (m : TimeSeriesModel) :
  same_series m (update_linear_model svc m).
Proof.
  unfold update_linear_model. destruct (linear_pars _ _ _ _).
  apply same_series_set_linear_model.
Qed.

Ltac series_step :=
  match goal with
  | H : bind _ _ = Ok _ |- _ =>
      apply bind_Ok in H; let x := fresh "x" in let E := fresh "E" in
      destruct H as [x [E H]]
  | H : (let '(_, _) := ?p in _) = Ok _ |- _ => destruct p eqn:?
  | H : (if ?b then _ else _) = Ok _ |- _ => destruct b eqn:?
  | H : match ?o with Some _ => _ | None => _ end = Ok _ |- _ => destruct o eqn:?
  | H : ret _ = Ok _ |- _ => injection H as H; subst
  | H : Ok _ = Ok _ |- _ => injection H as H; subst
  | H : raise _ = Ok _ |- _ => discriminate H
  | H : Raise _ = Ok _ |- _ => discriminate H
  | H : Fuel = Ok _ |- _ => discriminate H
  end.

Section Frame.

Variable svc : Services.

Lemma same_series_exclude (m m' : TimeSeriesModel) (idx : list nat) :
  exclude_sinusoids m idx = Ok m' -> same_series m m'.
Proof.
  unfold exclude_sinusoids. intros H. repeat series_step.
  apply same_series_with_sinusoid.
Qed.

Lemma same_series_include (m m' : TimeSeriesModel) (idx : list nat) :
  include_sinusoids m idx = Ok m' -> same_series m m'.
Proof.
  unfold include_sinusoids. intros H. repeat series_step.
  apply same_series_with_sinusoid.
Qed.

Lemma same_series_remove (m m' : TimeSeriesModel) (idx : list nat) :
  remove_sinusoids m idx = Ok m' -> same_series m m'.
Proof.
  unfold remove_sinusoids. intros H. repeat series_step.
  apply same_series_with_sinusoid.
Qed.

Lemma same_series_add (m m' : TimeSeriesModel) (f a ph : list Q) :
  add_sinusoids svc m f a ph = Ok m' -> same_series m m'.
Proof.
  unfold add_sinusoids. intros H. repeat series_step.
  apply same_series_with_sinusoid.
Qed.

Lemma same_series_set (m m' : TimeSeriesModel) (f a ph : list Q) :
  set_sinusoids svc m f a ph = Ok m' -> same_series m m'.
Proof.
  unfold set_sinusoids. intros H. repeat series_step.
  apply same_series_with_sinusoid.
Qed.

Lemma same_series_update (m m' : TimeSeriesModel) (f a ph : Q) (j : nat) :
  update_sinusoid svc m f a ph j = Ok m' -> same_series m m'.
Proof.
  unfold update_sinusoid. intros H. repeat series_step.
  apply same_series_with_sinusoid.
Qed.

Lemma same_series_restore (f_c a_c ph_c : list Q) (idx : list nat) :
  forall m m', restore_sinusoids svc m f_c a_c ph_c idx = Ok m' -> same_series m m'.
Proof.
  induction idx as [| j idx IH]; intros m m' H; simpl in H.
  - series_step. apply same_series_refl.
  - repeat series_step.
    eapply same_series_trans; [eapply same_series_update; eassumption |].
    apply IH. assumption.
Qed.

Lemma same_series_refine_one (m m' : TimeSeriesModel) (i_harmonics : list nat) (j : nat) :
  refine_one svc m i_harmonics j = Ok m' -> same_series m m'.
Proof.
  unfold refine_one. intros H.
  apply bind_Ok in H. destruct H as [m1 [E1 H]].
  apply bind_Ok in H. destruct H as [f_j [_ H]].
  apply bind_Ok in H. destruct H as [[[f a] ph] [_ H]].
  eapply same_series_trans; [eapply same_series_exclude; eassumption |].
  eapply same_series_trans; [apply same_series_update_linear_model |].
  eapply same_series_update. eassumption.
Qed.

Lemma same_series_refine_pass (i_harmonics close_f : list nat) :
  forall m m', refine_pass svc m i_harmonics close_f = Ok m' -> same_series m m'.
Proof.
  induction close_f as [| j close_f IH]; intros m m' H; simpl in H.
  - series_step. apply same_series_refl.
  - apply bind_Ok in H. destruct H as [m1 [E1 H]].
    eapply same_series_trans; [eapply same_series_refine_one; eassumption |].
    apply IH. assumption.
Qed.

Lemma same_series_refine_loop (i_harmonics close_f : list nat) (fuel : nat) :
  forall m bic_prev m',
    refine_loop svc fuel m i_harmonics close_f bic_prev = Ok m' -> same_series m m'.
Proof.
  induction fuel as [| fuel IH]; intros m bic_prev m' H; simpl in H;
    [discriminate |].
  unfold get_sinusoid_parameters in H.
  apply bind_Ok in H. destruct H as [m1 [E1 H]].
  apply same_series_refine_pass in E1.
  destruct (Qgt_bool _ _).
  - apply IH in H.
    eapply same_series_trans; [exact E1 |].
    eapply same_series_trans; [apply same_series_update_linear_model | exact H].
  - apply bind_Ok in H. destruct H as [m2 [E2 H]].
    injection H as H. subst m'.
    apply same_series_restore in E2.
    eapply same_series_trans; [exact E1 |].
    eapply same_series_trans; [apply same_series_update_linear_model |].
    eapply same_series_trans; [exact E2 |].
    apply same_series_update_linear_model.
Qed.

Lemma same_series_refine_subset (fuel : nat) (m m' : TimeSeriesModel)
  (close_f : list nat) :
  refine_subset svc fuel m close_f = Ok m' -> same_series m m'.
Proof. unfold refine_subset. apply same_series_refine_loop. Qed.

Lemma same_series_replace_candidate (m m' : TimeSeriesModel)
  (i_harmonics set_i : list nat) (n_c n_i : nat) :
  replace_candidate svc m i_harmonics set_i = Ok (m', n_c, n_i) -> same_series m m'.
Proof.
  unfold replace_candidate. intros H.
  apply bind_Ok in H. destruct H as [m1 [E1 H]].
  apply bind_Ok in H. destruct H as [[[f a] ph] [_ H]].
  apply bind_Ok in H. destruct H as [m2 [E2 H]].
  injection H as H _ _. subst m'.
  eapply same_series_trans; [eapply same_series_exclude; eassumption |].
  eapply same_series_trans; [apply same_series_update_linear_model |].
  eapply same_series_trans; [eapply same_series_add; eassumption |].
  apply same_series_update_linear_model.
Qed.

Lemma same_series_replace_try (i_harmonics set_i : list nat)
  (m m' : TimeSeriesModel) (b b' : Q) (removed removed' : list nat) :
  replace_try svc i_harmonics (m, b, removed) set_i = Ok (m', b', removed') ->
  same_series m m'.
Proof.
  unfold replace_try. intros H.
  destruct (existsb _ set_i).
  - injection H as H _ _. subst. apply same_series_refl.
  - apply bind_Ok in H. destruct H as [[[m1 n_c] n_i] [E1 H]].
    apply same_series_replace_candidate in E1.
    destruct (replace_accepts _ _).
    + injection H as H _ _. subst. exact E1.
    + apply bind_Ok in H. destruct H as [m2 [E2 H]].
      apply bind_Ok in H. destruct H as [m3 [E3 H]].
      injection H as H _ _. subst m'.
      eapply same_series_trans; [exact E1 |].
      eapply same_series_trans; [eapply same_series_remove; eassumption |].
      eapply same_series_trans; [eapply same_series_include; eassumption |].
      apply same_series_update_linear_model.
Qed.

Lemma same_series_replace_sets (i_harmonics : list nat) (sets : list (list nat)) :
  forall m b removed m' b' removed',
    replace_sets svc i_harmonics (m, b, removed) sets = Ok (m', b', removed') ->
    same_series m m'.
Proof.
  induction sets as [| set_i sets IH]; intros m b removed m' b' removed' H;
    simpl in H.
  - injection H as H _ _. subst. apply same_series_refl.
  - apply bind_Ok in H. destruct H as [[[m1 b1] removed1] [E1 H]].
    eapply same_series_trans; [eapply same_series_replace_try; eassumption |].
    eapply IH. eassumption.
Qed.

Lemma same_series_replace_subset (m m' : TimeSeriesModel) (close_f : list nat) :
  replace_subset svc m close_f = Ok m' -> same_series m m'.
Proof.
  unfold replace_subset. intros H.
  apply bind_Ok in H. destruct H as [[[m1 b1] removed1] [E1 H]].
  injection H as H. subst m'.
  eapply same_series_trans; [eapply same_series_replace_sets; eassumption |].
  apply same_series_with_sinusoid.
Qed.

End Frame.

(** ** A rejected round *)

Section Rejection.

Variable svc : Services.
Variables (bic_thr snr_thr : Q) (stop_crit : string).
Variables (fit_each_step replace_each_step : bool).
Variables (n_extract : Z) (n_sin_init : nat) (fuel_refine : nat).

Lemma same_series_improve (m m' : TimeSeriesModel) :
  improve svc fit_each_step fuel_refine m = Ok m' -> same_series m m'.
Proof.
  unfold improve, get_parameters. intros H. destruct fit_each_step.
  - destruct (fit_multi_sinusoid_per_group _ _ _ _ _ _ _ _ _)
      as [[[[c s] f] a] ph].
    apply same_series_set in H.
    eapply same_series_trans; [apply (same_series_set_linear_model m c s) | exact H].
  - destruct (1 <? _)%nat.
    + eapply same_series_refine_subset. eassumption.
    + injection H as H. subst. apply same_series_update_linear_model.
Qed.

Lemma same_series_replace_close (m m' : TimeSeriesModel) :
  replace_close svc replace_each_step m = Ok m' -> same_series m m'.
Proof.
  unfold replace_close. intros H. destruct replace_each_step.
  - destruct (1 <? _)%nat.
    + eapply same_series_replace_subset. eassumption.
    + injection H as H. subst. apply same_series_refl.
  - injection H as H. subst. apply same_series_refl.
Qed.

(** A round that rejects its candidate sets the sinusoids back to the
    arrays it remembered and fits the trend again. *)
Lemma loop_body_rejected (st st' : LoopState) :
  loop_body svc bic_thr snr_thr stop_crit fit_each_step replace_each_step
    n_extract n_sin_init fuel_refine st = Ok st' ->
  condition_1 st' = false ->
  exists m_t m_r,
    same_series (ls_model st) m_t
    /\ set_sinusoids svc m_t (f_n (ls_model st)) (a_n (ls_model st))
         (ph_n (ls_model st)) = Ok m_r
    /\ ls_model st' = update_linear_model svc m_r.
Proof.
  unfold loop_body, get_sinusoid_parameters.
  destruct (ls_switch st && negb (condition_1 st)); intros H Hrej;
    apply bind_Ok in H; destruct H as [[[f_i a_i] ph_i] [_ H]];
    apply bind_Ok in H; destruct H as [m1 [E1 H]];
    apply bind_Ok in H; destruct H as [m2 [E2 H]];
    apply bind_Ok in H; destruct H as [m_t [E3 H]];
    apply bind_Ok in H; destruct H as [cond1 [_ H]];
    apply bind_Ok in H; destruct H as [[m' b'] [Hm H]];
    injection H as H; subst st'; simpl in Hrej; subst cond1;
    apply bind_Ok in Hm; destruct Hm as [m_r [Hr Hm]];
    injection Hm as Hm1 Hm2; subst; simpl;
    exists m_t, m_r;
    (split; [| split; [exact Hr | reflexivity]]);
    (eapply same_series_trans; [eapply same_series_add; eassumption |]);
    (eapply same_series_trans; [eapply same_series_improve; eassumption |]);
    eapply same_series_replace_close; eassumption.
Qed.

(** The rounds on record only grow, by one with each round. *)
Lemma loop_rounds (fuel : nat) :
  forall st st',
    loop svc bic_thr snr_thr stop_crit fit_each_step replace_each_step
      n_extract n_sin_init fuel_refine fuel st = Finished st' ->
    (length (ls_rounds st) <= length (ls_rounds st'))%nat
    /\ (length (ls_rounds st') = length (ls_rounds st) -> st' = st).
Proof.
  induction fuel as [| fuel IH]; intros st st' H; simpl in H.
  - destruct (loop_condition st); [discriminate |].
    injection H as H. subst. split; [lia | reflexivity].
  - destruct (loop_condition st).
    + destruct (loop_body _ _ _ _ _ _ _ _ _ st) as [st1 | e |] eqn:Eb;
        try discriminate.
      apply loop_body_Ok in Eb.
      destruct Eb as [m_t [cond1 [_ [_ [_ [_ [Hr _]]]]]]].
      apply IH in H. rewrite Hr in H. simpl in H. split; lia.
    + injection H as H. subst. split; [lia | reflexivity].
Qed.

(** A finished run that has a single round on record, starting from none,
    is the one round. *)
Lemma loop_single_round (fuel : nat) (st st' : LoopState) (r : Round) :
  loop svc bic_thr snr_thr stop_crit fit_each_step replace_each_step
    n_extract n_sin_init fuel_refine fuel st = Finished st' ->
  ls_rounds st = [] -> ls_rounds st' = [r] ->
  loop_body svc bic_thr snr_thr stop_crit fit_each_step replace_each_step
    n_extract n_sin_init fuel_refine st = Ok st'.
Proof.
  intros H H0 H1. destruct fuel as [| fuel]; simpl in H.
  - destruct (loop_condition st); [discriminate |].
    injection H as H. subst. rewrite H0 in H1. discriminate.
  - destruct (loop_condition st).
    + destruct (loop_body _ _ _ _ _ _ _ _ _ st) as [st1 | e |] eqn:Eb;
        try discriminate.
      pose proof Eb as Eb'. apply loop_body_Ok in Eb'.
      destruct Eb' as [m_t [cond1 [_ [_ [_ [_ [Hr _]]]]]]].
      apply loop_rounds in H. destruct H as [_ H].
      rewrite H; [reflexivity |].
      rewrite H1, Hr, H0. reflexivity.
    + injection H as H. subst. rewrite H0 in H1. discriminate.
Qed.

End Rejection.

(** The rows built by [rows] are all included. *)
Lemma rows_included (svc : Services) (f a ph : list Q) :
  forall (old r : list Sinusoid),
    rows svc f a ph old = Ok r -> filter included r = r.
Proof.
  revert a ph.
  induction f as [| x f IH]; intros [| y a] [| z ph] old r H;
    simpl in H; try discriminate.
  - injection H as H. subst. reflexivity.
  - apply bind_Ok in H. destruct H as [r' [Hr H]].
    injection H as H. subst r. simpl. rewrite (IH _ _ _ _ Hr). reflexivity.
Qed.

(** C2, as stated, fails for the trend.  A flat series of value 1 comes
    with the intercept 1.1 (set by a fit, say) and no sinusoids; the only
    candidate is rejected, and the model returned has the intercept 1,
    which [update_linear_model] computed after the sinusoids were set
    back. *)
Lemma rejection_refits_trend :
  ~ rejection_restores (StandIn.series [1; 1; 1] [11 # 10] [0] [])
      (extract_sinusoids (StandIn.services (fun _ => 0) StandIn.penalised_rss)
         5 (StandIn.series [1; 1; 1] [11 # 10] [0] [])
         2 0 "bic" "a" 0 false true).
Proof.
  intros H.
  destruct (H (final_state
                 (extract_sinusoids
                    (StandIn.services (fun _ => 0) StandIn.penalised_rss)
                    5 (StandIn.series [1; 1; 1] [11 # 10] [0] [])
                    2 0 "bic" "a" 0 false true))
              {| rd_select := "a"; rd_bic_prev := 203 # 100; rd_bic := 5;
                 rd_accepted := false |})
    as [_ [_ [_ [Hc _]]]]; try (vm_compute; reflexivity).
  revert Hc. vm_compute. discriminate.
Qed.

(** C2, amended: a call of [extract_sinusoids] that finishes after a single
    round, its candidate rejected, returns the model with the series
    untouched and the sinusoid arrays it was called with (the phases being
    wrapped already, wrapping them again changes nothing); the trend it
    returns is the one [update_linear_model] fits to the flux minus these
    sinusoids, whatever trend the model came with. *)
Theorem rejection_rolls_back (svc : Services) (fuel : nat)
  (ts_model : TimeSeriesModel) (bic_thr snr_thr : Q) (stop_crit select : string)
  (n_extract : Z) (fit_each_step replace_each_step : bool)
  (st : LoopState) (r : Round) :
  extract_sinusoids svc fuel ts_model bic_thr snr_thr stop_crit select n_extract
    fit_each_step replace_each_step = Finished st ->
  ls_rounds st = [r] ->
  rd_accepted r = false ->
  (forall s, In s (sinusoid ts_model) -> wrap_phase svc (phase s) = phase s) ->
  same_series ts_model (ls_model st)
  /\ f_n (ls_model st) = f_n ts_model
  /\ a_n (ls_model st) = a_n ts_model
  /\ ph_n (ls_model st) = ph_n ts_model
  /\ (const (ls_model st), slope (ls_model st))
     = linear_pars svc (time ts_model)
         (np_sub (flux ts_model)
            (sum_sines svc (time ts_model) (f_n ts_model) (a_n ts_model)
               (ph_n ts_model)))
         (i_chunks ts_model).
Proof.
  intros Ho Hr Hrej Hwrap.
  unfold extract_sinusoids in Ho.
  set (n := if (n_extract =? 0)%Z then (10 ^ 6)%Z else n_extract) in Ho.
  assert (Hb : exists st0,
             ls_model st0 = ts_model
             /\ loop_body svc bic_thr snr_thr stop_crit fit_each_step
                  replace_each_step n (n_sin ts_model) fuel st0 = Ok st).
  { destruct (String.eqb select "hybrid");
      (eexists; split;
       [| eapply loop_single_round; [exact Ho | reflexivity | exact Hr]]);
      reflexivity. }
  destruct Hb as [st0 [Hm0 Hb]].
  pose proof Hb as Hb'. apply loop_body_Ok in Hb'.
  destruct Hb' as [m_t' [cond1 [_ [_ [Hc1 [_ [Hrs _]]]]]]].
  rewrite Hr in Hrs. injection Hrs as Hrs _. subst r. simpl in Hrej.
  assert (Hrej' : condition_1 st = false) by congruence.
  destruct (loop_body_rejected _ _ _ _ _ _ _ _ _ _ _ Hb Hrej')
    as [m_t [m_r [Hs [Hset Hm]]]].
  rewrite Hm0 in Hs, Hset. clear Hb Hc1 Ho.
  unfold set_sinusoids in Hset.
  apply bind_Ok in Hset. destruct Hset as [rws [Hrows Hset]].
  injection Hset as Hset. subst m_r.
  destruct (rows_parameters _ _ _ _ _ _ Hrows) as [Hf [Ha Hp]].
  assert (Hp' : map phase rws = ph_n ts_model).
  { rewrite Hp. unfold ph_n. rewrite map_map. apply map_ext_in.
    intros s Hin. apply Hwrap. exact Hin. }
  assert (Hact : active (with_sinusoid m_t rws) = rws).
  { unfold active. simpl. exact (rows_included _ _ _ _ _ _ Hrows). }
  destruct Hs as [Ht [Hfl [Hch Hrest]]].
  rewrite Hm. unfold update_linear_model, model_sinusoid.
  rewrite Hact, Hf, Ha, Hp'. simpl time. simpl flux. simpl i_chunks.
  rewrite Ht, Hfl, Hch.
  destruct (linear_pars svc _ _ _) as [c s] eqn:El.
  unfold f_n, a_n, ph_n, same_series. simpl.
  rewrite Hf, Ha, Hp'. unfold f_n, a_n, ph_n. tauto.
Qed.

Section RollbackFacts.

Import Rollback.

Lemma rejection_rolls_back_witness :
  same_series before (ls_model after)
  /\ f_n (ls_model after) = f_n before
  /\ a_n (ls_model after) = a_n before
  /\ ph_n (ls_model after) = ph_n before
  /\ (const (ls_model after), slope (ls_model after))
     = linear_pars svc (time before)
         (np_sub (flux before)
            (sum_sines svc (time before) (f_n before) (a_n before) (ph_n before)))
         (i_chunks before).
Proof.
  apply (rejection_rolls_back svc 5 before 2 0 "bic" "a" 0 false true after
           {| rd_select := "a"; rd_bic_prev := 101 # 20; rd_bic := 5;
              rd_accepted := false |}).
  - vm_compute. reflexivity.
  - vm_compute. reflexivity.
  - reflexivity.
  - intros s [Hs | []]. subst s. vm_compute. reflexivity.
Defined.

End RollbackFacts.

(** ** The window of the local ascent *)

(** C9, as stated, fails: on a time base of 1 around [f_approx = 50] the
    scan runs from 47.5 to 52.5, not from 12.5 to 87.5. *)
Lemma scan_is_narrower : ~ scans_25_resolution_units [0; 1] 50.
Proof.
  intros H.
  destruct (H 1 (1 # 10) eq_refl eq_refl) as [_ Hhi].
  revert Hhi. vm_compute. discriminate.
Qed.

(** C9, amended: the first scan of [extract_approx] is the periodogram on
    the window of 25 grid steps [df = 0.1 / t_tot] to either side of
    [f_approx], that is 2.5 / t_tot or 5/3 of a resolution unit
    [1.5 / t_tot], its lower end not below [df / 10 = 0.01 / t_tot]; the
    uphill walk and the refinement work on that scan. *)
Theorem extract_approx_window (svc : Services) (time flux : list Q)
  (f_approx t_tot : Q) :
  np_ptp time = Ok t_tot ->
  0 < t_tot ->
  let f_resolution := (15 # 10) / t_tot in
  exists df f0 fn,
    extract_approx svc time flux f_approx
    = climb_and_refine svc time flux f_approx df (scargle svc time flux f0 fn df)
    /\ df == f_resolution / 15
    /\ f0 == Qmax (f_approx - (5 # 3) * f_resolution) ((1 # 100) / t_tot)
    /\ fn == f_approx + (5 # 3) * f_resolution.
Proof.
  intros Hptp Hpos f_resolution.
  exists ((1 # 10) / t_tot), (fst (approx_window f_approx ((1 # 10) / t_tot))),
    (snd (approx_window f_approx ((1 # 10) / t_tot))).
  assert (Hne : ~ t_tot == 0) by lra.
  split; [| split; [| split]].
  - unfold extract_approx, freq_step. rewrite Hptp. reflexivity.
  - unfold f_resolution. field. exact Hne.
  - unfold approx_window, f_resolution. simpl fst.
    apply Q.max_compat; field; exact Hne.
  - unfold approx_window, f_resolution. simpl snd. field. exact Hne.
Qed.

Lemma extract_approx_window_witness :
  exists df f0 fn,
    extract_approx (StandIn.services (StandIn.peak 50 1 1) StandIn.penalised_rss)
      [0; 1] [0; 0] 50
    = climb_and_refine
        (StandIn.services (StandIn.peak 50 1 1) StandIn.penalised_rss)
        [0; 1] [0; 0] 50 df
        (scargle (StandIn.services (StandIn.peak 50 1 1) StandIn.penalised_rss)
           [0; 1] [0; 0] f0 fn df)
    /\ df == ((15 # 10) / 1) / 15
    /\ f0 == Qmax (50 - (5 # 3) * ((15 # 10) / 1)) ((1 # 100) / 1)
    /\ fn == 50 + (5 # 3) * ((15 # 10) / 1).
Proof.
  apply (extract_approx_window
           (StandIn.services (StandIn.peak 50 1 1) StandIn.penalised_rss)
           [0; 1] [0; 0] 50 1).
  - reflexivity.
  - reflexivity.
Defined.

(** ** The extractors at the edge of the scanned range *)

Section EdgeFacts.

Import Edge.

(** C4 fails on the code: when the highest point of the scanned grid is its
    first or last point, the oversampled scan from [peak - df] to
    [peak + df] reaches [df] beyond the bounds, and the frequency returned
    lies outside them.  [extract_single] between 1 and 2 returns 2.05, or
    0.95; [extract_local] between 1.5 and 2 returns 2.1; [extract_approx]
    around 1, whose window ends at 3.5, returns 3.51. *)
Theorem extracted_frequency_out_of_bounds :
  extract_single above [0; 1] [0; 0] 1 2 "a" = Ok (41 # 20, 1, 0)
  /\ ~ 41 # 20 <= 2
  /\ extract_single below [0; 1] [0; 0] 1 2 "a" = Ok (19 # 20, 1, 0)
  /\ ~ 1 <= 19 # 20
  /\ extract_local behind_dip [0; 1] [0; 0] (3 # 2) 2 = Ok (21 # 10, 1, 0)
  /\ ~ 21 # 10 <= 2
  /\ approx_window 1 (1 # 10) = (1 # 100, 35 # 10)
  /\ extract_approx outside_window [0; 1] [0; 0] 1 = Ok (351 # 100, 74 # 75, 0)
  /\ ~ 351 # 100 <= 35 # 10.
Proof.
  repeat match goal with |- _ /\ _ => split end;
    try (vm_compute; reflexivity);
    intros H; vm_compute in H; apply H; reflexivity.
Qed.

End EdgeFacts.

(** ** Replacing a pair of close frequencies *)















Section Replacement.

Variable svc : Services.




End Replacement.

Section PairFacts.

Import Pair.


End PairFacts.



(** A pair of two harmonics is replaced by two sinusoids, at the
    frequencies of the two. *)
Example harmonic_pair_replaced_by_two :
  exists m',
    replace_subset Pair.rewarding Pair.harmonic_pair [0; 1]%nat = Ok m'
    /\ f_n m' = [1 # 4; 3 # 10]
    /\ replace_accepts (bic Pair.rewarding Pair.harmonic_pair)
                       (bic Pair.rewarding m') = true.
Proof. vm_compute. eexists. repeat split. Qed.

(** ** Removing single sinusoids *)

Lemma mem_In (i : nat) (l : list nat) : mem i l = true <-> In i l.
Proof.
  unfold mem. rewrite existsb_exists. split.
  - intros [x [Hin Hx]]. apply Nat.eqb_eq in Hx. subst. exact Hin.
  - intros Hin. exists i. split; [exact Hin | apply Nat.eqb_refl].
Qed.

(** [np.delete] keeps the entries at the positions [kept], in their
    order. *)
Lemma delete_from_kept {A : Type} (d : A) (removed : list nat) (l : list A) :
  forall k,
    delete_from k removed l
    = map (fun i => nth (i - k) l d)
        (filter (fun i => negb (mem i removed)) (seq k (length l))).
Proof.
  induction l as [| x l IH]; intros k; simpl; [reflexivity |].
  rewrite IH. destruct (mem k removed); simpl.
  - apply map_ext_in. intros i Hi. apply filter_In in Hi. destruct Hi as [Hi _].
    apply in_seq in Hi. replace (i - k)%nat with (S (i - S k)) by lia. reflexivity.
  - rewrite Nat.sub_diag. f_equal.
    apply map_ext_in. intros i Hi. apply filter_In in Hi. destruct Hi as [Hi _].
    apply in_seq in Hi. replace (i - k)%nat with (S (i - S k)) by lia. reflexivity.
Qed.

Lemma delete_from_kept_0 {A : Type} (d : A) (removed : list nat) (l : list A) :
  delete_from 0 removed l = map (fun i => nth i l d) (kept (length l) removed).
Proof.
  unfold kept. rewrite (delete_from_kept d). apply map_ext.
  intros i. f_equal. lia.
Qed.

(** Deleting distinct positions of an array shortens it by their number. *)
Lemma kept_length (n : nat) (removed : list nat) :
  NoDup removed -> (forall i, In i removed -> (i < n)%nat) ->
  (length (kept n removed) + length removed = n)%nat.
Proof.
  intros Hnd Hlt. unfold kept.
  assert (Hp : Permutation (seq 0 n)
                 (filter (fun i => negb (mem i removed)) (seq 0 n)
                  ++ filter (fun i => mem i removed) (seq 0 n))).
  { generalize (seq 0 n). intros l. induction l as [| x l IH]; simpl.
    - constructor.
    - destruct (mem x removed); simpl.
      + apply Permutation_cons_app. exact IH.
      + constructor. exact IH. }
  assert (Hq : Permutation (filter (fun i => mem i removed) (seq 0 n)) removed).
  { apply NoDup_Permutation.
    - apply NoDup_filter. apply seq_NoDup.
    - exact Hnd.
    - intros i. rewrite filter_In, in_seq, mem_In. split; [tauto |].
      intros Hi. specialize (Hlt i Hi). split; [lia | exact Hi]. }
  apply Permutation_length in Hp. apply Permutation_length in Hq.
  rewrite length_app, Hq, length_seq in Hp. lia.
Qed.

Section RemoveSingle.

Variable svc : Services.
Variables (time f_n a_n ph_n : list Q) (i_chunks : chunks) (harmonics : list nat).

Hypothesis a_n_length : length a_n = length f_n.
Hypothesis ph_n_length : length ph_n = length f_n.

Lemma getitem_Ok {A : Type} (l : list A) (i : nat) :
  (i < length l)%nat -> exists x, getitem l i = Ok x.
Proof.
  intros H. unfold getitem.
  destruct (nth_error l i) as [x |] eqn:E; [exists x; reflexivity |].
  apply nth_error_None in E. lia.
Qed.

Lemma remove_try_returns (st : RemoveState) (i : nat) :
  (i < length f_n)%nat -> marks_positions f_n st ->
  exists st',
    remove_try svc time f_n a_n ph_n i_chunks harmonics st i = Ok st'
    /\ marks_positions f_n st'
    /\ (length (remove_single st) <= length (remove_single st'))%nat.
Proof.
  intros Hi [Hnd Hlt]. unfold remove_try.
  destruct (mem i (remove_single st)) eqn:Em.
  - exists st. repeat split; [exact Hnd | exact Hlt | lia].
  - destruct (getitem_Ok f_n i Hi) as [f_i Ef].
    destruct (getitem_Ok a_n i) as [a_i Ea]; [lia |].
    destruct (getitem_Ok ph_n i) as [ph_i Ep]; [lia |].
    rewrite Ef, Ea, Ep. cbn [bind].
    destruct (linear_pars svc _ _ _) as [c s].
    destruct (Qgt_bool _ _).
    + eexists. split; [reflexivity |]. cbn [remove_single]. repeat split.
      * apply NoDup_app; [exact Hnd | repeat constructor; intros [] |].
        intros x Hx [Hx' | []]. subst x.
        apply mem_In in Hx. congruence.
      * intros x Hx. apply in_app_or in Hx. destruct Hx as [Hx | [Hx | []]].
        -- apply Hlt. exact Hx.
        -- subst x. exact Hi.
      * rewrite length_app. lia.
    + exists st. repeat split; [exact Hnd | exact Hlt | lia].
Qed.

Lemma remove_pass_returns (range : list nat) :
  (forall i, In i range -> (i < length f_n)%nat) ->
  forall st, marks_positions f_n st ->
    exists st',
      remove_pass svc time f_n a_n ph_n i_chunks harmonics st range = Ok st'
      /\ marks_positions f_n st'
      /\ (length (remove_single st) <= length (remove_single st'))%nat.
Proof.
  induction range as [| i range IH]; intros Hr st Hst; simpl.
  - exists st. repeat split; try apply Hst. lia.
  - destruct (remove_try_returns st i (Hr i (or_introl eq_refl)) Hst)
      as [st1 [E1 [H1 L1]]].
    rewrite E1. cbn [bind].
    destruct (IH (fun x Hx => Hr x (or_intror Hx)) st1 H1) as [st2 [E2 [H2 L2]]].
    exists st2. repeat split; try apply H2; [exact E2 | lia].
Qed.

Lemma marks_positions_length (st : RemoveState) :
  marks_positions f_n st -> (length (remove_single st) <= length f_n)%nat.
Proof.
  intros [Hnd Hlt].
  assert (H : (length (remove_single st) <= length (seq 0 (length f_n)))%nat);
    [| rewrite length_seq in H; exact H].
  apply NoDup_incl_length; [exact Hnd |].
  intros i Hi. apply in_seq. specialize (Hlt i Hi). lia.
Qed.

(** The loop stops before it has used one pass more than there are
    sinusoids left to remove. *)
Lemma remove_loop_returns (fuel : nat) :
  forall st, marks_positions f_n st ->
    (length f_n - length (remove_single st) < fuel)%nat ->
    exists st',
      remove_loop svc fuel time f_n a_n ph_n i_chunks harmonics st = Ok st'
      /\ marks_positions f_n st'.
Proof.
  induction fuel as [| fuel IH]; intros st Hst Hf; [lia |].
  simpl.
  destruct (remove_pass_returns (seq 0 (length f_n))
              (fun i Hi => proj2 (proj1 (in_seq _ _ _) Hi)) st Hst)
    as [st1 [E1 [H1 L1]]].
  rewrite E1. cbn [bind].
  destruct (Nat.ltb_spec (length (remove_single st)) (length (remove_single st1))).
  - apply IH; [exact H1 |].
    pose proof (marks_positions_length st1 H1). lia.
  - exists st1. split; [reflexivity | exact H1].
Qed.

End RemoveSingle.

(** C10: [remove_sinusoids_single], given three parameter arrays of one
    length, returns; what it returns for the sinusoids are the three arrays
    with the entries at one list of distinct positions deleted.  So each
    returned triple is the input triple at a position that was not removed,
    unchanged and in the original order, the arrays are shorter by the
    number of positions removed, and only the trend is computed anew. *)
Theorem remove_sinusoids_single_only_deletes (svc : Services)
  (time flux : list Q) (p_orb : Q) (const slope f_n a_n ph_n : list Q)
  (i_chunks : chunks) :
  length a_n = length f_n ->
  length ph_n = length f_n ->
  exists (removed : list nat) (cur_resid : list Q),
    NoDup removed
    /\ (forall i, In i removed -> (i < length f_n)%nat)
    /\ remove_sinusoids_single svc time flux p_orb const slope f_n a_n ph_n i_chunks
       = Ok (fst (linear_pars svc time cur_resid i_chunks),
             snd (linear_pars svc time cur_resid i_chunks),
             map (fun i => nth i f_n 0) (kept (length f_n) removed),
             map (fun i => nth i a_n 0) (kept (length f_n) removed),
             map (fun i => nth i ph_n 0) (kept (length f_n) removed))
    /\ (length (kept (length f_n) removed) + length removed = length f_n)%nat.
Proof.
  intros Ha Hp. unfold remove_sinusoids_single.
  destruct (find_harmonics_from_pattern svc f_n p_orb _) as [harmonics harmonic_n].
  match goal with
  | |- context [remove_loop svc _ _ _ _ _ _ _ ?st0] =>
      destruct (remove_loop_returns svc time f_n a_n ph_n i_chunks harmonics
                  Ha Hp (S (length f_n)) st0) as [st [E [Hnd Hlt]]]
  end.
  - split; [constructor | intros i []].
  - simpl. lia.
  - rewrite E. cbn [bind].
    exists (remove_single st), (rm_cur_resid st).
    split; [exact Hnd |]. split; [exact Hlt |]. split.
    + destruct (linear_pars svc time (rm_cur_resid st) i_chunks) as [c s].
      assert (Hr : forall l : list Q, length l = length f_n ->
                     np_delete l (remove_single st)
                     = Ok (map (fun i => nth i l 0)
                             (kept (length f_n) (remove_single st)))).
      { intros l Hl. unfold np_delete.
        replace (forallb _ _) with true.
        - unfold ret. rewrite (delete_from_kept_0 0), Hl. reflexivity.
        - symmetry. apply forallb_forall. intros i Hi.
          apply Nat.ltb_lt. rewrite Hl. apply Hlt. exact Hi. }
      rewrite (Hr f_n eq_refl), (Hr a_n Ha), (Hr ph_n Hp). reflexivity.
    + apply kept_length; assumption.
Qed.

Section ReduceFacts.

Import Reduce.

Example removes_the_idle_sinusoids :
  remove_sinusoids_single svc [0; 1; 2] [0; 3; 0] 0 [0] [0]
    [3 # 10; 1 # 4; 1 # 5] [0; 3; 0] [0; 0; 0] [(0, 3)%nat]
  = Ok ([0], [0], [1 # 4], [3], [0]).
Proof. vm_compute. reflexivity. Qed.

Lemma remove_sinusoids_single_only_deletes_witness :
  exists (removed : list nat) (cur_resid : list Q),
    NoDup removed
    /\ (forall i, In i removed -> (i < 3)%nat)
    /\ remove_sinusoids_single svc [0; 1; 2] [0; 3; 0] 0 [0] [0]
         [3 # 10; 1 # 4; 1 # 5] [0; 3; 0] [0; 0; 0] [(0, 3)%nat]
       = Ok (fst (linear_pars svc [0; 1; 2] cur_resid [(0, 3)%nat]),
             snd (linear_pars svc [0; 1; 2] cur_resid [(0, 3)%nat]),
             map (fun i => nth i [3 # 10; 1 # 4; 1 # 5] 0) (kept 3 removed),
             map (fun i => nth i [0; 3; 0] 0) (kept 3 removed),
             map (fun i => nth i [0; 0; 0] 0) (kept 3 removed))
    /\ (length (kept 3 removed) + length removed = 3)%nat.
Proof.
  apply (remove_sinusoids_single_only_deletes svc [0; 1; 2] [0; 3; 0] 0 [0] [0]
           [3 # 10; 1 # 4; 1 # 5] [0; 3; 0] [0; 0; 0] [(0, 3)%nat]).
  - reflexivity.
  - reflexivity.
Defined.

End ReduceFacts.

(** ** The nearest harmonic *)

Lemma Qabs_sub_lower (x y : Q) : x - y <= Qabs (x - y) /\ y - x <= Qabs (x - y).
Proof.
  split.
  - apply Qle_Qabs.
  - rewrite <- Qabs_opp. setoid_replace (y - x) with (- (x - y)) by ring.
    apply Qle_Qabs.
Qed.

(** No positive integer is nearer to [x] than [Z.max 1 (rint x)]. *)
Lemma nearest_positive_integer (x : Q) (k : Z) :
  (1 <= k)%Z ->
  Qabs (x - inject_Z (Z.max 1 (rint x))) <= Qabs (x - inject_Z k).
Proof.
  intros Hk.
  destruct (rint_close x) as [Hlo Hhi].
  destruct (Qabs_sub_lower x (inject_Z k)) as [Hk1 Hk2].
  destruct (Z.le_gt_cases 1 (rint x)) as [Hge | Hlt];
    [rewrite Z.max_r by exact Hge | rewrite Z.max_l by lia].
  - (* the nearest integer is at least 1 *)
    apply Qabs_Qle_condition.
    destruct (Z.lt_trichotomy k (rint x)) as [Hc | [Hc | Hc]].
    + assert (H1 : inject_Z k + 1 <= inject_Z (rint x)).
      { change 1 with (inject_Z 1). rewrite <- inject_Z_plus, <- Zle_Qle. lia. }
      split; lra.
    + subst k. split; lra.
    + assert (H1 : inject_Z (rint x) + 1 <= inject_Z k).
      { change 1 with (inject_Z 1). rewrite <- inject_Z_plus, <- Zle_Qle. lia. }
      split; lra.
  - (* it is below 1: every positive integer is above [x] *)
    assert (H0 : inject_Z (rint x) <= 0).
    { change 0 with (inject_Z 0). rewrite <- Zle_Qle. lia. }
    assert (H1 : inject_Z 1 <= inject_Z k) by (rewrite <- Zle_Qle; exact Hk).
    change (inject_Z 1) with 1 in *.
    apply Qabs_Qle_condition. split; lra.
Qed.

(** The distance to a multiple of the orbital frequency, in units of it. *)
Lemma distance_to_multiple (f p_orb : Q) (k : Z) :
  0 < p_orb ->
  Qabs (f - inject_Z k / p_orb) == Qabs (f * p_orb - inject_Z k) / p_orb.
Proof.
  intros Hp.
  assert (Hne : ~ p_orb == 0) by lra.
  setoid_replace (f - inject_Z k / p_orb)
    with ((f * p_orb - inject_Z k) * / p_orb) by (field; exact Hne).
  rewrite Qabs_Qmult.
  rewrite (Qabs_pos (/ p_orb)); [reflexivity |].
  apply Qlt_le_weak. apply Qinv_lt_0_compat. exact Hp.
Qed.

(** A frequency is a candidate exactly when it is within the tolerance of
    some positive multiple of the orbital frequency. *)
Lemma is_candidate_iff (f p_orb f_tol : Q) :
  0 < p_orb ->
  is_candidate f p_orb f_tol = true
  <-> exists k : Z, (1 <= k)%Z /\ Qabs (f - inject_Z k / p_orb) < f_tol.
Proof.
  intros Hp. unfold is_candidate, nearest_harmonic.
  rewrite Qlt_bool_iff. split.
  - intros H. exists (Z.max 1 (rint (f * p_orb))). split; [lia | exact H].
  - intros [k [Hk H]].
    eapply Qle_lt_trans; [| exact H].
    rewrite !distance_to_multiple by exact Hp.
    unfold Qdiv. apply Qmult_le_compat_r.
    + apply nearest_positive_integer. exact Hk.
    + apply Qlt_le_weak. apply Qinv_lt_0_compat. exact Hp.
Qed.

Lemma harmonics_from_nil (f_n : list Q) (p_orb f_tol : Q) :
  forall i,
    fst (harmonics_from i f_n p_orb f_tol) = []
    <-> forall f, In f f_n -> is_candidate f p_orb f_tol = false.
Proof.
  induction f_n as [| f f_n IH]; intros i; simpl.
  - split; [intros _ f [] | reflexivity].
  - specialize (IH (S i)).
    destruct (harmonics_from (S i) f_n p_orb f_tol) as [idx ns].
    destruct (is_candidate f p_orb f_tol) eqn:Ec; simpl in *.
    + split; [discriminate |]. intros H.
      specialize (H f (or_introl eq_refl)). congruence.
    + rewrite IH. split.
      * intros H f' [Hf | Hf]; [subst; exact Ec | apply H; exact Hf].
      * intros H f' Hf. apply H. right. exact Hf.
Qed.

(** ** The domain error is raised in one place *)

Lemma no_domain_error_Ok {A : Type} (a : A) : raises_no_domain_error (Ok a).
Proof. discriminate. Qed.

Lemma no_domain_error_ret {A : Type} (a : A) : raises_no_domain_error (ret a).
Proof. discriminate. Qed.

Lemma no_domain_error_Fuel {A : Type} : raises_no_domain_error (@Fuel A).
Proof. discriminate. Qed.

Lemma no_domain_error_index {A : Type} (msg : string) :
  raises_no_domain_error (@raise A (IndexError msg)).
Proof. discriminate. Qed.

Lemma no_domain_error_bind {A B : Type} (c : result A) (k : A -> result B) :
  raises_no_domain_error c -> (forall a, raises_no_domain_error (k a)) ->
  raises_no_domain_error (bind c k).
Proof.
  unfold raises_no_domain_error. intros Hc Hk.
  destruct c as [a | e |]; simpl; [apply Hk | | discriminate].
  intros H. apply Hc. injection H as H. rewrite H. reflexivity.
Qed.

Create HintDb domain_error.

Ltac no_domain_error :=
  repeat first
    [ solve [auto with domain_error]
    | apply no_domain_error_Ok
    | apply no_domain_error_ret
    | apply no_domain_error_Fuel
    | apply no_domain_error_index
    | progress intros
    | apply no_domain_error_bind
    | match goal with
      | |- raises_no_domain_error (let '(_, _) := ?e in _) => destruct e
      | |- raises_no_domain_error (if ?b then _ else _) => destruct b
      | |- raises_no_domain_error (match ?l with [] => _ | _ :: _ => _ end) =>
          destruct l
      | |- raises_no_domain_error (match ?o with Some _ => _ | None => _ end) =>
          destruct o
      | |- raises_no_domain_error (raise (ValueError _)) =>
          unfold raises_no_domain_error, raise, no_harmonics_found; discriminate
      end ].

Lemma no_domain_error_getitem {A : Type} (l : list A) (i : nat) :
  raises_no_domain_error (getitem l i).
Proof. unfold getitem. no_domain_error. Qed.

Lemma no_domain_error_setitem {A : Type} (l : list A) (x : A) :
  forall i, raises_no_domain_error (setitem l i x).
Proof.
  induction l as [| y l IH]; intros [| i]; simpl; no_domain_error.
Qed.

#[local] Hint Resolve no_domain_error_getitem no_domain_error_setitem : domain_error.

Lemma no_domain_error_take {A : Type} (l : list A) (idx : list nat) :
  raises_no_domain_error (take l idx).
Proof. induction idx as [| i idx IH]; simpl; no_domain_error. Qed.

Lemma no_domain_error_np_delete {A : Type} (l : list A) (idx : list nat) :
  raises_no_domain_error (np_delete l idx).
Proof. unfold np_delete. no_domain_error. Qed.

Lemma no_domain_error_np_argmax (l : list Q) : raises_no_domain_error (np_argmax l).
Proof. unfold np_argmax. no_domain_error. Qed.

Lemma no_domain_error_np_ptp (l : list Q) : raises_no_domain_error (np_ptp l).
Proof. unfold np_ptp, py_max, py_min. no_domain_error. Qed.

Lemma no_domain_error_candidates_of (harmonic_n : list Z) (n : Z) :
  forall harmonics, raises_no_domain_error (candidates_of harmonics harmonic_n n).
Proof.
  induction harmonic_n as [| k ks IH]; intros [| h hs]; simpl; no_domain_error.
Qed.

#[local] Hint Resolve no_domain_error_take no_domain_error_np_delete
  no_domain_error_np_argmax no_domain_error_np_ptp
  no_domain_error_candidates_of : domain_error.

Section DomainError.

Variable svc : Services.

Lemma no_domain_error_refine_peak (time flux : list Q) (f_peak df : Q) :
  raises_no_domain_error (refine_peak svc time flux f_peak df).
Proof. unfold refine_peak, refine_window. no_domain_error. Qed.

Lemma no_domain_error_extract_approx (time flux : list Q) (f_approx : Q) :
  raises_no_domain_error (extract_approx svc time flux f_approx).
Proof.
  pose proof no_domain_error_refine_peak.
  unfold extract_approx, freq_step, approx_window, climb_and_refine.
  no_domain_error.
Qed.

Lemma no_domain_error_fix_harmonics (time : list Q) (p_orb : Q)
  (f_n a_n ph_n : list Q) (i_chunks : chunks) (harmonics : list nat)
  (harmonic_n ns : list Z) :
  forall st,
    raises_no_domain_error
      (fix_harmonics svc time p_orb f_n a_n ph_n i_chunks harmonics harmonic_n st ns).
Proof.
  induction ns as [| n ns IH]; intros st; simpl; no_domain_error.
  unfold fix_harmonic. no_domain_error.
Qed.

Lemma no_domain_error_reextract_all (time : list Q) (i_chunks : chunks)
  (freq_res : Q) (non_harm : list nat) :
  forall st,
    raises_no_domain_error (reextract_all svc time i_chunks freq_res st non_harm).
Proof.
  pose proof no_domain_error_extract_approx.
  induction non_harm as [| i rest IH]; intros st; simpl; no_domain_error.
  unfold reextract. no_domain_error.
Qed.

End DomainError.

(** C7: with the harmonic finder of the spec, on a series with a positive
    time base and for a positive period, [fix_harmonic_frequency] raises
    its domain error, the [ValueError] "No harmonic frequencies found", if
    and only if no frequency of [f_n] is within half a resolution unit,
    [(1.5 / t_tot) / 2], of a positive multiple of [1 / p_orb]; no other
    place of the function raises that error.  The error is the whole result:
    it comes with no arrays, and the function writes to none of the arrays
    it was given. *)
Theorem no_harmonics_error (svc : Services) (time flux : list Q) (p_orb : Q)
  (const slope f_n a_n ph_n : list Q) (i_chunks : chunks) (t_tot : Q) :
  np_ptp time = Ok t_tot ->
  0 < t_tot ->
  0 < p_orb ->
  fix_harmonic_frequency (with_spec_finder svc) time flux p_orb const slope
    f_n a_n ph_n i_chunks = Raise no_harmonics_found
  <-> forall f, In f f_n ->
        forall k : Z, (1 <= k)%Z ->
          ~ Qabs (f - inject_Z k / p_orb) < ((15 # 10) / t_tot) / 2.
Proof.
  intros Hptp _ Hp.
  set (f_tol := ((15 # 10) / t_tot) / 2).
  assert (Hnone : fst (find_harmonics_tolerance_spec f_n p_orb f_tol) = []
                  <-> forall f, In f f_n ->
                        forall k : Z, (1 <= k)%Z ->
                          ~ Qabs (f - inject_Z k / p_orb) < f_tol).
  { unfold find_harmonics_tolerance_spec. rewrite harmonics_from_nil. split.
    - intros H f Hf k Hk Hlt.
      assert (Hc : is_candidate f p_orb f_tol = true).
      { apply is_candidate_iff; [exact Hp |]. exists k. split; assumption. }
      rewrite (H f Hf) in Hc. discriminate.
    - intros H f Hf.
      destruct (is_candidate f p_orb f_tol) eqn:Ec; [| reflexivity].
      apply is_candidate_iff in Ec; [| exact Hp].
      destruct Ec as [k [Hk Hlt]]. exfalso. exact (H f Hf k Hk Hlt). }
  rewrite <- Hnone. clear Hnone.
  unfold fix_harmonic_frequency, fix_candidates. rewrite Hptp. cbn [bind].
  change (find_harmonics_tolerance (with_spec_finder svc))
    with find_harmonics_tolerance_spec.
  fold f_tol.
  destruct (find_harmonics_tolerance_spec f_n p_orb f_tol)
    as [harmonics harmonic_n].
  cbn [fst]. destruct harmonics as [| h harmonics]; cbn [length Nat.eqb].
  - split; reflexivity.
  - split; [| discriminate]. intros H. exfalso. revert H.
    pose proof (no_domain_error_fix_harmonics (with_spec_finder svc)).
    pose proof (no_domain_error_reextract_all (with_spec_finder svc)).
    match goal with
    | |- ?c = _ -> False => change (raises_no_domain_error c)
    end.
    no_domain_error.
Qed.

Section FixingFacts.

Import Fixing.

(** For the period 1 on a time base of 2 the tolerance is 0.375: the
    frequencies 1.5 and 2.5 are half a unit from every harmonic. *)
Example raises_without_harmonics :
  fix_harmonic_frequency (with_spec_finder svc) [0; 1; 2] [0; 0; 0] 1 [0] [0]
    [3 # 2; 5 # 2] [1; 1] [0; 0] [(0, 3)%nat]
  = Raise no_harmonics_found.
Proof. vm_compute. reflexivity. Qed.

Lemma no_harmonics_error_witness :
  fix_harmonic_frequency (with_spec_finder svc) [0; 1; 2] [0; 0; 0] 1 [0] [0]
    [3 # 2; 5 # 2] [1; 1] [0; 0] [(0, 3)%nat]
  = Raise no_harmonics_found
  <-> forall f, In f [3 # 2; 5 # 2] ->
        forall k : Z, (1 <= k)%Z ->
          ~ Qabs (f - inject_Z k / 1) < ((15 # 10) / 2) / 2.
Proof.
  apply (no_harmonics_error svc [0; 1; 2] [0; 0; 0] 1 [0] [0]
           [3 # 2; 5 # 2] [1; 1] [0; 0] [(0, 3)%nat] 2).
  - reflexivity.
  - reflexivity.
  - reflexivity.
Defined.

End FixingFacts.

(** ** Fixing the harmonics *)

Lemma getitem_seq (n i x : nat) : getitem (seq 0 n) i = Ok x -> x = i /\ (i < n)%nat.
Proof.
  unfold getitem. destruct (nth_error (seq 0 n) i) as [y |] eqn:E; [| discriminate].
  intros H. injection H as H. subst y.
  assert (Hi : (i < n)%nat).
  { rewrite <- (length_seq n 0). apply nth_error_Some. congruence. }
  split; [| exact Hi].
  rewrite (nth_error_nth' _ 0%nat) in E by (rewrite length_seq; exact Hi).
  rewrite seq_nth in E by exact Hi. injection E as E. lia.
Qed.

(** Indexing [np.arange(n)] with an index array gives the index array. *)
Lemma take_seq (n : nat) (idx : list nat) :
  forall r, take (seq 0 n) idx = Ok r ->
            r = idx /\ forall i, In i idx -> (i < n)%nat.
Proof.
  induction idx as [| i idx IH]; intros r H; simpl in H.
  - injection H as H. subst. split; [reflexivity | intros i []].
  - apply bind_Ok in H. destruct H as [x [Hx H]].
    apply bind_Ok in H. destruct H as [xs [Hxs H]].
    injection H as H. subst r.
    apply getitem_seq in Hx. destruct Hx as [Hx Hi]. subst x.
    destruct (IH _ Hxs) as [E Hlt]. subst xs.
    split; [reflexivity |]. intros j [Hj | Hj]; [subst; exact Hi | apply Hlt; exact Hj].
Qed.

Lemma candidates_of_complete (n : Z) (harmonic_n : list Z) :
  forall harmonics r,
    candidates_of harmonics harmonic_n n = Ok r ->
    forall i, In (i, n) (combine harmonics harmonic_n) -> In i r.
Proof.
  induction harmonic_n as [| k ks IH]; intros [| h hs] r H i Hin;
    simpl in *; try contradiction; try discriminate.
  apply bind_Ok in H. destruct H as [r' [Hr H]].
  injection H as H. subst r.
  destruct Hin as [Hin | Hin].
  - injection Hin as Hh Hk. subst. rewrite Z.eqb_refl. left. reflexivity.
  - specialize (IH _ _ Hr i Hin). destruct (k =? n)%Z; [right |]; exact IH.
Qed.

(** [np.unique] lists every value once, in increasing order. *)
Lemma insert_unique_In (n x : Z) (l : list Z) :
  In x (insert_unique n l) <-> x = n \/ In x l.
Proof.
  induction l as [| m l IH]; simpl.
  - intuition.
  - destruct (Z.ltb_spec n m); [simpl; intuition |].
    destruct (Z.eqb_spec n m); simpl; [subst; intuition |].
    rewrite IH. intuition.
Qed.

Lemma np_unique_In (x : Z) (l : list Z) : In x (np_unique l) <-> In x l.
Proof.
  unfold np_unique. induction l as [| n l IH]; simpl; [reflexivity |].
  rewrite insert_unique_In, IH. intuition.
Qed.




Lemma np_delete_Ok {A : Type} (l r : list A) (idx : list nat) :
  np_delete l idx = Ok r -> r = delete_from 0 idx l.
Proof.
  unfold np_delete. destruct (forallb _ idx); [| discriminate].
  intros H. injection H as H. symmetry. exact H.
Qed.


Section FixFacts.

Variable svc : Services.
Variables (time : list Q) (p_orb : Q) (f_n a_n ph_n : list Q) (i_chunks : chunks).
Variables (harmonics : list nat) (harmonic_n : list Z).

(** The loop over the harmonic numbers appends one sinusoid at the exact
    frequency for each number and marks all its candidates. *)
Lemma fix_harmonics_appends (ns : list Z) :
  forall st st',
    fix_harmonics svc time p_orb f_n a_n ph_n i_chunks harmonics harmonic_n st ns
    = Ok st' ->
    refitted svc time (f_new st) (a_new st) (ph_new st) ->
    f_new st' = f_new st ++ map (fun n => inject_Z n / p_orb) ns
    /\ refitted svc time (f_new st') (a_new st') (ph_new st')
    /\ (forall i, In i (remove_harm_c st) -> In i (remove_harm_c st'))
    /\ (forall i n, In n ns -> In (i, n) (combine harmonics harmonic_n) ->
                    In i (remove_harm_c st')).
Proof.
  induction ns as [| n ns IH]; intros st st' H Hre; simpl in H.
  - injection H as H. subst st'. rewrite app_nil_r.
    repeat split; [exact Hre | tauto | intros i n []].
  - apply bind_Ok in H. destruct H as [st1 [H1 H]].
    unfold fix_harmonic in H1.
    apply bind_Ok in H1. destruct H1 as [cand [Hc H1]].
    apply bind_Ok in H1. destruct H1 as [remove [Hrem H1]].
    apply bind_Ok in H1. destruct H1 as [f_r [_ H1]].
    apply bind_Ok in H1. destruct H1 as [a_r [_ H1]].
    apply bind_Ok in H1. destruct H1 as [ph_r [_ H1]].
    destruct (linear_pars svc _ _ _) as [c s].
    destruct (scargle_ampl_phase_single svc _ _ _) as [a_i ph_i] eqn:Es.
    injection H1 as H1. subst st1.
    apply take_seq in Hc. destruct Hc as [Hc _]. subst cand.
    destruct (IH _ _ H) as [Hf [Hr [Hk Hall]]].
    { cbn [f_new a_new ph_new]. eapply refitted_more; [exact Hre | exact Es]. }
    cbn [f_new remove_harm_c] in Hf, Hk.
    split; [| split; [exact Hr | split]].
    + rewrite Hf, <- app_assoc. reflexivity.
    + intros i Hi. apply Hk. apply in_or_app. left. exact Hi.
    + intros i n' [Hn | Hn] Hin.
      * subst n'. apply Hk. apply in_or_app. right.
        exact (candidates_of_complete _ _ _ _ Hrem i Hin).
      * exact (Hall i n' Hn Hin).
Qed.

End FixFacts.

(** Every entry that [np.delete] keeps sits at a position that is not
    deleted. *)
Lemma delete_from_In {A : Type} (idx : list nat) (l : list A) (x : A) :
  forall k, In x (delete_from k idx l) ->
            exists j, nth_error l j = Some x /\ mem (k + j) idx = false.
Proof.
  induction l as [| y l IH]; intros k H; simpl in H; [contradiction |].
  destruct (mem k idx) eqn:E.
  - destruct (IH _ H) as [j [Hj Hm]]. exists (S j).
    split; [exact Hj |]. replace (k + S j)%nat with (S k + j)%nat by lia. exact Hm.
  - destruct H as [H | H].
    + subst y. exists 0%nat. split; [reflexivity |]. rewrite Nat.add_0_r. exact E.
    + destruct (IH _ H) as [j [Hj Hm]]. exists (S j).
      split; [exact Hj |]. replace (k + S j)%nat with (S k + j)%nat by lia. exact Hm.
Qed.



Section ReextractFacts.

Variable svc : Services.
Variables (time : list Q) (i_chunks : chunks) (freq_res : Q).





End ReextractFacts.




(** What [fix_candidates] returns. *)
Lemma fix_candidates_Ok (svc : Services) (time flux : list Q) (p_orb : Q)
  (const slope f_n a_n ph_n : list Q) (i_chunks : chunks)
  (freq_res : Q) (st : FixState) (f1 a1 ph1 : list Q) :
  fix_candidates svc time flux p_orb const slope f_n a_n ph_n i_chunks
  = Ok (freq_res, st, (f1, a1, ph1)) ->
  let found := find_harmonics_tolerance svc f_n p_orb (freq_res / 2) in
  f_new st = map (fun n => inject_Z n / p_orb) (np_unique (snd found))
  /\ refitted svc time (f_new st) (a_new st) (ph_new st)
  /\ (forall i n, In (i, n) (combine (fst found) (snd found)) ->
                  In i (remove_harm_c st))
  /\ f1 = delete_from 0 (remove_harm_c st) f_n ++ f_new st
  /\ a1 = delete_from 0 (remove_harm_c st) a_n ++ a_new st
  /\ ph1 = delete_from 0 (remove_harm_c st) ph_n ++ ph_new st.
Proof.
  unfold fix_candidates. intros H.
  apply bind_Ok in H. destruct H as [t_tot [_ H]].
  destruct (find_harmonics_tolerance svc f_n p_orb ((15 # 10) / t_tot / 2))
    as [harmonics harmonic_n] eqn:Ef.
  destruct (length harmonics =? 0)%nat; [discriminate |].
  apply bind_Ok in H. destruct H as [st' [Hfix H]].
  apply bind_Ok in H. destruct H as [f_kept [Hfk H]].
  apply bind_Ok in H. destruct H as [a_kept [Hak H]].
  apply bind_Ok in H. destruct H as [ph_kept [Hpk H]].
  injection H as Hres Hst H1 H2 H3. subst freq_res st' f1 a1 ph1.
  rewrite Ef. cbn [fst snd].
  apply fix_harmonics_appends in Hfix; [| constructor].
  destruct Hfix as [Hf [Hr [_ Hall]]]. cbn [f_new app] in Hf.
  apply np_delete_Ok in Hfk, Hak, Hpk. subst.
  repeat split; try assumption.
  intros i n Hin. apply (Hall i n); [| exact Hin].
  apply np_unique_In. apply in_combine_r in Hin. exact Hin.
Qed.

Section DriftFacts.

Import Drift.


(** In the arrays with the fixed harmonic appended the pattern finder
    recognises the fixed harmonic and nothing else. *)
Example pattern_finder_sees_fixed_harmonic :
  fst (find_harmonics_from_pattern svc
         [8 # 5; 10000000001 # 10000000000] p_orb (1 # 1000000000))
  = [1%nat].
Proof. vm_compute. reflexivity. Qed.


End DriftFacts.


Section FixedFacts.

Import Fixed.

Example fixes_two_harmonics :
  fix_harmonic_frequency svc [0; 1; 2] [0; 0; 0] 1 [0] [0]
    f_in [1; 1; 1; 1] [0; 0; 0; 0] [(0, 3)%nat]
  = Ok ([8 # 25], [-12 # 25], [81 # 50; 1; 2], [1; 0; 6 # 25], [0; 0; 0]).
Proof. vm_compute. reflexivity. Qed.


End FixedFacts.

(** ** The finder of the spec recognises the fixed harmonics *)

Lemma rint_integer (n : Z) : rint (inject_Z n) = n.
Proof.
  unfold rint. rewrite Qfloor_Z.
  assert (H : inject_Z n - inject_Z n < 1 # 2).
  { unfold Qminus. rewrite Qplus_opp_r. reflexivity. }
  destruct (Qcompare_spec (inject_Z n - inject_Z n) (1 # 2)) as [E | E | E];
    [rewrite E in H; discriminate | reflexivity | exfalso; lra].
Qed.

(** The exact multiple [n / p_orb] is a candidate at every tolerance, with
    the harmonic number [n]. *)
Lemma exact_multiple_is_candidate (n : Z) (p_orb f_tol : Q) :
  0 < p_orb -> 0 < f_tol -> (1 <= n)%Z ->
  nearest_harmonic (inject_Z n / p_orb) p_orb = n
  /\ is_candidate (inject_Z n / p_orb) p_orb f_tol = true.
Proof.
  intros Hp Ht Hn.
  assert (Hne : ~ p_orb == 0) by lra.
  assert (E : nearest_harmonic (inject_Z n / p_orb) p_orb = n).
  { unfold nearest_harmonic.
    rewrite (rint_proper _ (inject_Z n)) by (field; exact Hne).
    rewrite rint_integer. lia. }
  split; [exact E |].
  unfold is_candidate. rewrite E. apply Qlt_bool_iff.
  setoid_replace (inject_Z n / p_orb - inject_Z n / p_orb) with 0 by ring.
  exact Ht.
Qed.

(** A frequency that is no candidate at a tolerance is none at a smaller
    one. *)
Lemma is_candidate_smaller (f p_orb f_tol f_tol' : Q) :
  f_tol' <= f_tol ->
  is_candidate f p_orb f_tol = false -> is_candidate f p_orb f_tol' = false.
Proof.
  unfold is_candidate. intros Hle H.
  destruct (Qlt_bool _ f_tol') eqn:E; [| reflexivity].
  apply Qlt_bool_iff in E.
  assert (H' : Qlt_bool (Qabs (f - inject_Z (nearest_harmonic f p_orb) / p_orb))
                 f_tol = true).
  { apply Qlt_bool_iff. eapply Qlt_le_trans; [exact E | exact Hle]. }
  congruence.
Qed.

Lemma harmonics_from_fixed (p_orb f_tol : Q) (free : list Q) (ns : list Z) :
  0 < p_orb -> 0 < f_tol ->
  (forall f, In f free -> is_candidate f p_orb f_tol = false) ->
  (forall n, In n ns -> (1 <= n)%Z) ->
  forall i,
    harmonics_from i (free ++ map (fun n => inject_Z n / p_orb) ns) p_orb f_tol
    = (seq (i + length free) (length ns), ns).
Proof.
  intros Hp Ht Hfree Hns.
  induction free as [| f free IH]; intros i; simpl.
  - rewrite Nat.add_0_r. revert i.
    induction ns as [| n ns IHn]; intros i; simpl; [reflexivity |].
    rewrite IHn by (intros n' Hn'; apply Hns; right; exact Hn').
    destruct (exact_multiple_is_candidate n p_orb f_tol Hp Ht
                (Hns n (or_introl eq_refl))) as [En Ec].
    rewrite Ec, En. reflexivity.
  - rewrite IH by (intros f' Hf'; apply Hfree; right; exact Hf').
    rewrite (Hfree f (or_introl eq_refl)).
    replace (S i + length free)%nat with (i + S (length free))%nat by lia.
    reflexivity.
Qed.

Lemma harmonics_from_spec (f_n : list Q) (p_orb f_tol : Q) :
  forall i,
    let found := harmonics_from i f_n p_orb f_tol in
    length (fst found) = length (snd found)
    /\ (forall n, In n (snd found) -> (1 <= n)%Z)
    /\ (forall k f, nth_error f_n k = Some f -> is_candidate f p_orb f_tol = true ->
                    In (i + k)%nat (fst found)).
Proof.
  induction f_n as [| f f_n IH]; intros i; simpl.
  - repeat split; [intros n [] | intros [| k] f' H; discriminate].
  - specialize (IH (S i)).
    destruct (harmonics_from (S i) f_n p_orb f_tol) as [idx ns].
    cbn [fst snd] in IH. destruct IH as [Hl [Hn Hk]].
    destruct (is_candidate f p_orb f_tol) eqn:Ec; cbn [fst snd].
    + split; [simpl; rewrite Hl; reflexivity |]. split.
      * intros n [Hn' | Hn']; [subst n; unfold nearest_harmonic; lia | apply Hn; exact Hn'].
      * intros [| k] f' H Hc; simpl in H.
        -- left. lia.
        -- right. replace (i + S k)%nat with (S i + k)%nat by lia.
           exact (Hk k f' H Hc).
    + split; [exact Hl |]. split; [exact Hn |].
      intros [| k] f' H Hc; simpl in H.
      * injection H as H. subst f'. congruence.
      * replace (i + S k)%nat with (S i + k)%nat by lia. exact (Hk k f' H Hc).
Qed.

(** With the finders of the spec, for a positive period and a tolerance of
    the first search of at least [1e-9], the second search finds exactly the
    fixed harmonics: the condition of [fixed_harmonics_exact] on the pattern
    finder is met. *)
Lemma spec_finder_recognises_fixed (svc : Services) (time flux : list Q) (p_orb : Q)
  (const slope f_n a_n ph_n : list Q) (i_chunks : chunks)
  (freq_res : Q) (st : FixState) (f1 a1 ph1 : list Q) :
  0 < p_orb ->
  (1 # 1000000000) <= freq_res / 2 ->
  fix_candidates (with_spec_finder svc) time flux p_orb const slope f_n a_n ph_n
    i_chunks = Ok (freq_res, st, (f1, a1, ph1)) ->
  fst (find_harmonics_from_pattern (with_spec_finder svc) f1 p_orb (1 # 1000000000))
  = seq (length f1 - length (f_new st)) (length (f_new st)).
Proof.
  intros Hp Htol Hcand.
  destruct (fix_candidates_Ok _ _ _ _ _ _ _ _ _ _ _ _ _ _ _ Hcand)
    as [Hnew [_ [Hall [Hf1 _]]]].
  change (find_harmonics_tolerance (with_spec_finder svc))
    with find_harmonics_tolerance_spec in Hnew, Hall.
  change (find_harmonics_from_pattern (with_spec_finder svc))
    with find_harmonics_tolerance_spec.
  unfold find_harmonics_tolerance_spec in *.
  destruct (harmonics_from_spec f_n p_orb (freq_res / 2) 0) as [Hl [Hn Hk]].
  set (found := harmonics_from 0 f_n p_orb (freq_res / 2)) in *.
  rewrite Hf1, Hnew.
  rewrite harmonics_from_fixed; try assumption; try reflexivity.
  - cbn [fst]. rewrite length_app, !length_map. f_equal. lia.
  - intros f Hf. apply delete_from_In in Hf. destruct Hf as [j [Hj Hm]].
    apply (is_candidate_smaller _ _ (freq_res / 2)); [exact Htol |].
    destruct (is_candidate f p_orb (freq_res / 2)) eqn:Ec; [| reflexivity].
    exfalso. specialize (Hk j f Hj Ec). cbn [Nat.add] in Hk, Hm.
    assert (Hin : exists n, In (j, n) (combine (fst found) (snd found))).
    { clear - Hk Hl. revert Hk Hl. generalize (fst found) (snd found).
      intros l. induction l as [| x l IH]; intros [| n ns] Hk Hl;
        simpl in *; try contradiction; try discriminate.
      destruct Hk as [Hk | Hk].
      - subst x. exists n. left. reflexivity.
      - destruct (IH ns Hk ltac:(lia)) as [n' Hn']. exists n'. right. exact Hn'. }
    destruct Hin as [n Hin]. specialize (Hall j n Hin).
    apply mem_In in Hall. congruence.
  - intros n Hin. apply Hn. exact (proj1 (np_unique_In _ _) Hin).
Qed.
